(** * ai-flask-app: the agent's prompt formatter, output parser, run guard
      and tool adapters

    A shallow embedding of [src/langchain.py] and [src/tools/replicate.py].

    - Python strings are sequences of Unicode code points.
    - Python exceptions are explicit: fallible code returns an [outcome].
    - Side effects (the progress callback, the model service, the tool
      backends) are threaded through a state-and-exception monad over an
      abstract world. *)

From Stdlib Require Import NArith ZArith String Ascii Lia.
From stdpp Require Import base option list gmap.

Set Warnings "-register-all".
Set Default Proof Using "Type".

(** ** Python strings *)

Module PyStr.

(** A character is a Unicode code point, a string a list of them. *)
Abbreviation char := N (only parsing).
Abbreviation str := (list N) (only parsing).

(** Literals are written as Rocq strings and read as code points. *)
Definition u (s : string) : str := N_of_ascii <$> list_ascii_of_string s.

(** Line feed and the double quote, which Rocq literals cannot escape. *)
Definition LF : char := 10%N.
Definition DQUOTE : char := 34%N.
Definition SPACE : char := 32%N.
Definition nl : str := [LF].
Definition dq : str := [DQUOTE].

(** [str.isspace] on one character, which is also the regular expression
    class [\s] on [str] patterns: CPython's table of whitespace code
    points. *)
Definition is_space (c : char) : bool :=
  ((9 <=? c) && (c <=? 13) || (28 <=? c) && (c <=? 32)
   || (c =? 133) || (c =? 160) || (c =? 5760)
   || (8192 <=? c) && (c <=? 8202)
   || (c =? 8232) || (c =? 8233) || (c =? 8239) || (c =? 8287)
   || (c =? 12288))%N.

(** [drop_while p s]: [s] without its longest prefix of characters
    satisfying [p]. *)
Fixpoint drop_while (p : char -> bool) (s : str) : str :=
  match s with
  | [] => []
  | c :: s' => if p c then drop_while p s' else s
  end.

Definition lstrip_by (p : char -> bool) (s : str) : str := drop_while p s.
Definition rstrip_by (p : char -> bool) (s : str) : str :=
  reverse (drop_while p (reverse s)).
Definition strip_by (p : char -> bool) (s : str) : str :=
  rstrip_by p (lstrip_by p s).

(** [s.strip()] *)
Definition strip (s : str) : str := strip_by is_space s.

(** [s.strip(chars)]: every leading and trailing character that occurs in
    [chars] is removed. *)
Definition mem (chars : str) (c : char) : bool := existsb (N.eqb c) chars.
Definition strip_chars (chars s : str) : str := strip_by (mem chars) s.

(** [s.startswith(pre)], returning what follows the prefix. *)
Fixpoint strip_prefix (pre s : str) : option str :=
  match pre, s with
  | [], _ => Some s
  | p :: pre', c :: s' => if (c =? p)%N then strip_prefix pre' s' else None
  | _ :: _, [] => None
  end.

Definition startswith (s pre : str) : bool :=
  match strip_prefix pre s with Some _ => true | None => false end.

(** [s.find(sub)]: the index of the first occurrence, [None] for -1. *)
Fixpoint find (s sub : str) : option nat :=
  if startswith s sub then Some 0
  else match s with
       | [] => None
       | _ :: s' => S <$> find s' sub
       end.

(** [s.rfind(sub)]: the index of the last occurrence, [None] for -1. *)
Fixpoint rfind (s sub : str) : option nat :=
  match s with
  | [] => if startswith [] sub then Some 0 else None
  | _ :: s' =>
      match rfind s' sub with
      | Some i => Some (S i)
      | None => if startswith s sub then Some 0 else None
      end
  end.

(** [sub in s] *)
Definition contains (sub s : str) : bool :=
  match find s sub with Some _ => true | None => false end.

(** [occurs s sub i]: [sub] occurs in [s] at index [i]. *)
Definition occurs (s sub : str) (i : nat) : Prop :=
  exists a b, s = a ++ sub ++ b /\ length a = i.

(** A string without a border (a proper, non-empty prefix that is also a
    suffix) cannot overlap itself
    (see [unbordered_no_overlap]). *)
Definition has_border (m : str) (k : nat) : bool :=
  bool_decide (take k m = drop (length m - k) m).
Definition unbordered (m : str) : bool :=
  forallb (fun k => negb (has_border m k)) (seq 1 (length m - 1)).

(** [sep.join(parts)] *)
Fixpoint join (sep : str) (parts : list str) : str :=
  match parts with
  | [] => []
  | [p] => p
  | p :: rest => p ++ sep ++ join sep rest
  end.

(** [s.split(sep)] for a non-empty separator: cut at the first occurrence
    and go on after it.  Every cut removes at least one character, so
    [length s] rounds are enough (see [split_fuel_unfold]). *)
Fixpoint split_fuel (fuel : nat) (s sep : str) : list str :=
  match fuel with
  | 0 => [s]
  | S n =>
      match find s sep with
      | Some i => take i s :: split_fuel n (drop (i + length sep) s) sep
      | None => [s]
      end
  end.

End PyStr.
Export PyStr.

(** ** Python values, exceptions and outcomes *)

(** The values that cross the boundaries modelled here: JSON-like data,
    tuples, and dictionaries keyed by strings. *)
Inductive pyval :=
| VNone
| VBool (b : bool)
| VInt (z : Z)
| VStr (s : str)
| VList (l : list pyval)
| VTuple (l : list pyval)
| VDict (d : gmap str pyval).

Inductive exc_class :=
| ValueError | KeyError | TypeError | IndexError | OtherError (name : str).

(** An instance of Python's [Exception], the class that [except Exception]
    catches: its class and its [args] tuple.  (Interpreter exits and
    keyboard interrupts are no [Exception]s and are not modelled.) *)
Record PyException := mkExc { exc_type : exc_class; exc_args : list pyval }.

Inductive outcome (A : Type) :=
| Returned (a : A)
| Raised (e : PyException).
Arguments Returned {A} a.
Arguments Raised {A} e.

Definition obind {A B} (m : outcome A) (k : A -> outcome B) : outcome B :=
  match m with
  | Returned a => k a
  | Raised e => Raised e
  end.

(** [s.split(sep)] *)
Definition split (s sep : str) : outcome (list str) :=
  match sep with
  | [] => Raised (mkExc ValueError [VStr (u "empty separator")])
  | _ :: _ => Returned (split_fuel (length s) s sep)
  end.

(** [l[-1]] on a list *)
Definition getitem_last {A} (l : list A) : outcome A :=
  match last l with
  | Some x => Returned x
  | None => Raised (mkExc IndexError [VStr (u "list index out of range")])
  end.

(** The name of a value's type, as error messages quote it. *)
Definition type_name (v : pyval) : str :=
  match v with
  | VNone => u "NoneType"
  | VBool _ => u "bool"
  | VInt _ => u "int"
  | VStr _ => u "str"
  | VList _ => u "list"
  | VTuple _ => u "tuple"
  | VDict _ => u "dict"
  end.

(** The [TypeError] of a string key used on a value that is no dictionary:
    a list asks for an integer index, any other value has no item
    [operation] ("assignment", "deletion") at all. *)
Definition no_item_support (d : pyval) (operation : str) : PyException :=
  mkExc TypeError
    [VStr (match d with
           | VList _ => u "list indices must be integers or slices, not str"
           | _ =>
               u "'" ++ type_name d ++ u "' object does not support item "
                 ++ operation
           end)].

(** [d[k] = v] and [del d[k]] on a value. *)
Definition setitem (d : pyval) (k : str) (v : pyval) : outcome pyval :=
  match d with
  | VDict m => Returned (VDict (<[k := v]> m))
  | _ => Raised (no_item_support d (u "assignment"))
  end.

Definition delitem (d : pyval) (k : str) : outcome pyval :=
  match d with
  | VDict m =>
      match m !! k with
      | Some _ => Returned (VDict (delete k m))
      | None => Raised (mkExc KeyError [VStr k])
      end
  | _ => Raised (no_item_support d (u "deletion"))
  end.

(** [d[k]] read on a value; [None] when [d] is no dictionary or has no
    such key. *)
Definition getitem (d : pyval) (k : str) : option pyval :=
  match d with
  | VDict m => m !! k
  | _ => None
  end.

(** [v[k1][k2]...]: the value reached by reading the keys of [path] one
    after the other. *)
Fixpoint getpath (v : pyval) (path : list str) : option pyval :=
  match path with
  | [] => Some v
  | k :: rest => getitem v k ≫= fun v' => getpath v' rest
  end.

(** ** The output parser ([CustomOutputParser]) *)

Module Parser.

(** [AgentAction(tool, tool_input, log)] and
    [AgentFinish(return_values, log)]. *)
Record AgentAction := mkAction { tool : str; tool_input : str; log : str }.
Record AgentFinish :=
  mkFinish { return_values : gmap str pyval; finish_log : str }.

(** [Union[AgentAction, AgentFinish]] *)
Inductive ParsedOutput :=
| Action (a : AgentAction)
| Finish (f : AgentFinish).

Definition FINAL_ANSWER : str := u "Final Answer:".
Definition ACTION : str := u "Action: ".
Definition ACTION_INPUT : str := u "Action Input:".

(** The pattern of [parse], matched under [re.DOTALL], is read piece by
    piece from the right: the literal [ACTION], a lazy group 1 of any
    characters, a greedy run of line feeds, the literal [ACTION_INPUT], a
    greedy run of whitespace, a greedy group 2 of any characters. *)

(** The literal [ACTION_INPUT], the whitespace run and group 2: the greedy
    run takes every whitespace character it can; group 2 then takes all
    that is left, which always succeeds, so no shorter run is ever tried.
    Returns group 2. *)
Definition match_input (s : str) : option str :=
  drop_while is_space <$> strip_prefix ACTION_INPUT s.

(** The run of line feeds, then the rest: greedy, one more line feed
    first, and the rest of the pattern at this position when that fails. *)
Fixpoint match_newlines (s : str) : option str :=
  match s with
  | c :: s' =>
      if (c =? LF)%N then
        match match_newlines s' with
        | Some g2 => Some g2
        | None => match_input s
        end
      else match_input s
  | [] => match_input s
  end.

(** Group 1, then the rest: lazy, the shortest capture first, one more
    character (any character, under DOTALL) when the rest fails.  [seen]
    holds the capture so far, reversed.  Returns groups 1 and 2. *)
Fixpoint match_name (seen s : str) : option (str * str) :=
  match match_newlines s with
  | Some g2 => Some (reverse seen, g2)
  | None =>
      match s with
      | [] => None
      | c :: s' => match_name (c :: seen) s'
      end
  end.

(** The whole pattern at one start position. *)
Definition match_here (s : str) : option (str * str) :=
  strip_prefix ACTION s ≫= match_name [].

(** [re.search]: the match at the leftmost start position that has one. *)
Fixpoint re_search (s : str) : option (str * str) :=
  match match_here s with
  | Some groups => Some groups
  | None =>
      match s with
      | [] => None
      | _ :: s' => re_search s'
      end
  end.

Definition could_not_parse (llm_output : str) : PyException :=
  mkExc ValueError
    [VStr (u "Could not parse LLM output: `" ++ llm_output ++ u "`")].

Definition parse (llm_output : str) : outcome ParsedOutput :=
  if contains FINAL_ANSWER llm_output then
    obind (split llm_output FINAL_ANSWER) (fun parts =>
    obind (getitem_last parts) (fun answer =>
    Returned
      (Finish (mkFinish {[ u "output" := VStr (strip answer) ]} llm_output))))
  else
    match re_search llm_output with
    | None => Raised (could_not_parse llm_output)
    | Some (g1, g2) =>
        let action := strip g1 in
        let action_input := strip_chars dq (strip_chars [SPACE] g2) in
        Returned (Action (mkAction action action_input llm_output))
    end.

End Parser.
Export Parser.

(** ** Effects: a world threaded through fallible steps *)

Section Effects.
Context {W : Type}.

(** A computation reads and updates the world and returns or raises. *)
Definition M (A : Type) : Type := W -> outcome A * W.

Definition ret {A} (a : A) : M A := fun w => (Returned a, w).
Definition raise {A} (e : PyException) : M A := fun w => (Raised e, w).
Definition lift {A} (o : outcome A) : M A := fun w => (o, w).

Definition bind {A B} (m : M A) (k : A -> M B) : M B :=
  fun w =>
    match m w with
    | (Returned a, w') => k a w'
    | (Raised e, w') => (Raised e, w')
    end.

(** [try: body except Exception as e: handler(e)] *)
Definition try_except {A} (body : M A) (handler : PyException -> M A) : M A :=
  fun w =>
    match body w with
    | (Returned a, w') => (Returned a, w')
    | (Raised e, w') => handler e w'
    end.

End Effects.
Arguments M W A : clear implicits.

#[export] Instance M_ret {W} : MRet (M W) := fun A => @ret W A.
#[export] Instance M_bind {W} : MBind (M W) := fun A B k m => bind m k.

(** ** [str.format] on simple templates *)

Module PyFormat.

Definition LBRACE : char := 123%N.
Definition RBRACE : char := 125%N.

(** The characters of the field names modelled here: ASCII letters and the
    underscore. *)
Definition is_name_char (c : char) : bool :=
  ((65 <=? c) && (c <=? 90) || (97 <=? c) && (c <=? 122) || (c =? 95))%N.

(** A template is read from the left into literal characters and fields;
    the reading ends well, or with the error of a stray brace, or where
    the template leaves what is modelled here (a field that is empty or
    holds a digit, a dot, a bracket, a conversion, a format specification
    or a brace). *)
Inductive piece :=
| Lit (c : char)
| Field (field_name : str).

Inductive ending :=
| Complete
| Fails (e : PyException)
| Beyond.

Definition single_open : PyException :=
  mkExc ValueError [VStr (u "Single '{' encountered in format string")].
Definition single_close : PyException :=
  mkExc ValueError [VStr (u "Single '}' encountered in format string")].
Definition expected_close : PyException :=
  mkExc ValueError [VStr (u "expected '}' before end of string")].

Definition add_piece (p : piece) (r : list piece * ending)
  : list piece * ending :=
  (p :: r.1, r.2).

(** [parse_text t]: in literal text, where a doubled brace stands for
    one.  [parse_field seen t]: inside a field, [seen] being its name so
    far, reversed. *)
Fixpoint parse_text (t : str) {struct t} : list piece * ending :=
  match t with
  | [] => ([], Complete)
  | c :: t' =>
      if (c =? LBRACE)%N then
        match t' with
        | [] => ([], Fails single_open)
        | c' :: t'' =>
            if (c' =? LBRACE)%N then add_piece (Lit LBRACE) (parse_text t'')
            else parse_field [] t'
        end
      else if (c =? RBRACE)%N then
        match t' with
        | [] => ([], Fails single_close)
        | c' :: t'' =>
            if (c' =? RBRACE)%N then add_piece (Lit RBRACE) (parse_text t'')
            else ([], Fails single_close)
        end
      else add_piece (Lit c) (parse_text t')
  end
with parse_field (seen t : str) {struct t} : list piece * ending :=
  match t with
  | [] => ([], Fails expected_close)
  | c :: t' =>
      if (c =? RBRACE)%N then
        match seen with
        | [] => ([], Beyond)
        | _ :: _ => add_piece (Field (reverse seen)) (parse_text t')
        end
      else if is_name_char c then parse_field (c :: seen) t'
      else ([], Beyond)
  end.

(** [prepend v r]: [v] in front of what [r] returns, if it returns. *)
Definition prepend (v : str) (r : option (outcome str))
  : option (outcome str) :=
  match r with
  | Some (Returned rest) => Some (Returned (v ++ rest))
  | _ => r
  end.

(** The pieces are rendered from the left: a field is looked up among the
    keyword arguments, and a missing one is a [KeyError] there and then.
    [None] stands for "not modelled". *)
Fixpoint render (ps : list piece) (fin : ending) (kwargs : gmap str str)
  : option (outcome str) :=
  match ps with
  | [] =>
      match fin with
      | Complete => Some (Returned [])
      | Fails e => Some (Raised e)
      | Beyond => None
      end
  | Lit c :: ps' => prepend [c] (render ps' fin kwargs)
  | Field field_name :: ps' =>
      match kwargs !! field_name with
      | Some v => prepend v (render ps' fin kwargs)
      | None => Some (Raised (mkExc KeyError [VStr field_name]))
      end
  end.

(** [template.format] on keyword arguments that are strings. *)
Definition py_format (template : str) (kwargs : gmap str str)
  : option (outcome str) :=
  render (parse_text template).1 (parse_text template).2 kwargs.

(** A formatter that does what Python does wherever [py_format] says what
    that is. *)
Definition formats_like_python
    (str_format : str -> gmap str str -> outcome str) : Prop :=
  forall template kwargs o,
    py_format template kwargs = Some o -> str_format template kwargs = o.

(** [py_format] as a formatter; where it says nothing, an error that no
    statement relies on. *)
Definition python_format (template : str) (kwargs : gmap str str)
  : outcome str :=
  default (Raised (mkExc (OtherError (u "not modelled")) []))
    (py_format template kwargs).

(** The pieces without the fields named [field_name]. *)
Definition is_field (field_name : str) (p : piece) : bool :=
  match p with
  | Field n => bool_decide (n = field_name)
  | Lit _ => false
  end.
Definition without_field (field_name : str) (ps : list piece) : list piece :=
  List.filter (fun p => negb (is_field field_name p)) ps.

End PyFormat.
Export PyFormat.

(** ** Tools and the prompt formatter ([CustomPromptTemplate]) *)

Section Formatter.
Context {W : Type}.

(** A langchain [Tool]. *)
Record Tool := mkTool {
  name : str;
  description : str;
  return_direct : bool;
  func : str -> M W pyval
}.

(** [@tool(name, return_direct=...)] on a function [f(query: str)] with a
    docstring: the description is the name, the signature and the
    docstring. *)
Definition tool_decorator (tool_name : str) (direct : bool) (docstring : str)
    (f : str -> M W pyval) : Tool :=
  mkTool tool_name (tool_name ++ u "(query: str) - " ++ strip docstring)
    direct f.

Record CustomPromptTemplate := mkTemplate {
  template : str;
  tools : list Tool;
  chat_history : list str;
  thoughts_cb : option (str -> M W unit)
}.

Inductive Message := HumanMessage (content : str).

(** [str.format] applied to keyword arguments: Python's own formatter. *)
Variable str_format : str -> gmap str str -> outcome str.

(** One round of the loop over the steps: the pair is
    [(thoughts, latest_thoughts)]. *)
Definition step_thoughts (acc : str * str) (st : AgentAction * str)
  : str * str :=
  let '(thoughts, _) := acc in
  let '(action, observation) := st in
  let thoughts := thoughts ++ log action in
  let thoughts :=
    thoughts ++ nl ++ u "Observation: " ++ observation ++ nl ++ u "Thought: " in
  (thoughts, log action ++ nl ++ nl ++ u "Observation: " ++ observation).

Definition run_steps (intermediate_steps : list (AgentAction * str))
  : str * str :=
  foldl step_thoughts ([], []) intermediate_steps.

(** The keyword arguments handed to [template.format]. *)
Definition tools_kwargs (self : CustomPromptTemplate) (kwargs : gmap str str)
  : gmap str str :=
  let kwargs :=
    <[u "tools" :=
        join nl ((fun t => name t ++ u ": " ++ description t) <$> tools self)]>
      kwargs in
  let kwargs := <[u "tool_names" := join (u ", ") (name <$> tools self)]> kwargs in
  match chat_history self with
  | _ :: _ =>
      <[u "chat_history" :=
          u "Previous conversation history:" ++ nl ++ join nl (chat_history self)]>
        kwargs
  | [] => <[u "chat_history" := []]> kwargs
  end.

(** [format_messages]: [intermediate_steps] is the entry
    popped from the keyword arguments, [kwargs] the remaining ones.  An
    observation is the text its f-string interpolation yields. *)
Definition format_messages (self : CustomPromptTemplate)
    (intermediate_steps : list (AgentAction * str)) (kwargs : gmap str str)
  : M W (list Message) :=
  let '(thoughts, latest_thoughts) := run_steps intermediate_steps in
  let kwargs := <[u "agent_scratchpad" := thoughts]> kwargs in
  _ ← match thoughts_cb self with
      | Some cb => cb (strip latest_thoughts)
      | None => ret tt
      end;
  let kwargs := tools_kwargs self kwargs in
  formatted ← lift (str_format (template self) kwargs);
  ret [HumanMessage formatted].

(** What one step adds to the scratchpad, and what the callback is told
    about it. *)
Definition render_step (st : AgentAction * str) : str :=
  log st.1 ++ nl ++ u "Observation: " ++ st.2 ++ nl ++ u "Thought: ".
Definition report_step (st : AgentAction * str) : str :=
  log st.1 ++ nl ++ nl ++ u "Observation: " ++ st.2.

(** The keyword arguments that reach [template.format]. *)
Definition prompt_kwargs (self : CustomPromptTemplate)
    (steps : list (AgentAction * str)) (kwargs : gmap str str)
  : gmap str str :=
  tools_kwargs self (<[u "agent_scratchpad" := (run_steps steps).1]> kwargs).

(** The same template without its callback. *)
Definition without_cb (self : CustomPromptTemplate) : CustomPromptTemplate :=
  mkTemplate (template self) (tools self) (chat_history self) None.

(** What the callback is told: the report of the last step, or the empty
    string when there is no step yet. *)
Definition latest_report (steps : list (AgentAction * str)) : str :=
  strip (from_option report_step [] (last steps)).

End Formatter.

Arguments Tool W : clear implicits.
Arguments CustomPromptTemplate W : clear implicits.

(** ** The run: [handle_chat_with_agents] *)

Section Run.
Context {W : Type}.

(** Python's formatter, and [str.format_map] over the helper's [SafeDict]
    (unknown placeholders are left as they are). *)
Variable str_format : str -> gmap str str -> outcome str.
Variable format_map_SafeDict : str -> gmap str str -> outcome str.

(** The model service: [ChatOpenAI(temperature)] builds a client,
    [complete] asks it for a completion that ends before a stop sequence. *)
Variable LLM : Type.
Variable ChatOpenAI : Z -> M W LLM.
Variable complete : LLM -> list Message -> list str -> M W str.

(** The tool registry and the helpers of [utils.helper]. *)
Variable get_tools : list str -> LLM -> M W (list (Tool W)).
Variable get_tools_by_query : str -> LLM -> M W (list (Tool W)).
Variable encode_protected_output : str -> outcome str.
Variable is_dev_mode : M W bool.

(** [str(value)], and [traceback.print_exc()], which only writes a log. *)
Variable py_str : pyval -> str.
Variable print_exc : PyException -> W -> W.

Record LLMChain := mkChain { llm : LLM; prompt : CustomPromptTemplate W }.

Record LLMSingleActionAgent := mkAgent {
  llm_chain : LLMChain;
  output_parser : str -> outcome ParsedOutput;
  stop : list str;
  allowed_tools : list str
}.

Record AgentExecutor := mkExecutor {
  agent : LLMSingleActionAgent;
  executor_tools : list (Tool W);
  max_iterations : Z;
  return_intermediate_steps : bool;
  verbose : bool
}.

Definition step_value (st : AgentAction * str) : pyval :=
  VTuple [VTuple [VStr (tool st.1); VStr (tool_input st.1); VStr (log st.1)];
          VStr st.2].

(** Modelled from the spec: the result of a run of the executor, made of
    the inputs, the returned values and the trace. *)
Definition run_result (inputs : gmap str str) (returned : gmap str pyval)
    (trace : list (AgentAction * str)) : pyval :=
  VDict (<[u "intermediate_steps" := VList (step_value <$> trace)]>
           (returned ∪ (VStr <$> inputs))).

(** Modelled from the spec: the failure for a tool outside the allowed
    set. *)
Definition protocol_violation (tool_name : str) : PyException :=
  mkExc (OtherError (u "ProtocolViolation")) [VStr tool_name].

Definition find_tool (tool_name : str) (l : list (Tool W)) : option (Tool W) :=
  List.find (fun t => bool_decide (name t = tool_name)) l.

(** Modelled from the spec: the executor loop (langchain's [AgentExecutor]
    driving the single-action agent), whose code is not part of the
    sources.  One round per remaining iteration: format the prompt from the
    trace, ask the model, parse; a final answer ends the run; an action
    whose tool is allowed runs the tool and appends the step to the trace;
    any failure ends the run at once.  When the iterations are used up the
    run stops without a failure. *)
Fixpoint agent_loop (ex : AgentExecutor) (inputs : gmap str str)
    (iterations : nat) (trace : list (AgentAction * str)) : M W pyval :=
  match iterations with
  | 0 => ret (run_result inputs {[ u "output" := VNone ]} trace)
  | S n =>
      let a := agent ex in
      messages ← format_messages str_format (prompt (llm_chain a)) trace inputs;
      text ← complete (llm (llm_chain a)) messages (stop a);
      parsed ← lift (output_parser a text);
      match parsed with
      | Finish f => ret (run_result inputs (return_values f) trace)
      | Action act =>
          if bool_decide (tool act ∈ allowed_tools a) then
            match find_tool (tool act) (executor_tools ex) with
            | Some t =>
                observation ← func t (tool_input act);
                agent_loop ex inputs n (trace ++ [(act, py_str observation)])
            | None => raise (protocol_violation (tool act))
            end
          else raise (protocol_violation (tool act))
      end
  end.

(** Modelled from the spec: a call of the executor starts the loop with an
    empty trace and the iteration cap. *)
Definition agent_executor_call (ex : AgentExecutor) (inputs : gmap str str)
  : M W pyval :=
  agent_loop ex inputs (Z.to_nat (max_iterations ex)) [].

(** The base template, before the persona is filled in. *)
Definition TEMPLATE : str :=
  join nl [
    u "Act as a {actor} and have a conversation with a human. Answer the following questions as best you can. ";
    u "";
    u "You have access to the following tools:";
    u "";
    u "{tools}";
    u "";
    u "You must use the following format in every response:";
    u "";
    u "Question: the input question you must answer";
    u "Thought: you should always think about what to do";
    u "Action: the action to take, only be one of [{tool_names}], don't include other words";
    u "Action Input: the input to the action";
    u "Observation: the result of the action";
    u "... (this Thought/Action/Action Input/Observation can repeat N times)";
    u "Thought: I now know the final answer";
    u "Final Answer: the final answer to the original input question";
    u "";
    u "Begin! Remember to speak as a {actor} when giving your final answer. If you are sure you have the final answer or no action needed, you must respond "
      ++ dq ++ u "Final Answer: <answer>" ++ dq
      ++ u " in question's language in this final answer only. If you are not sure, you can continue to use the tools.";
    u "";
    u "{chat_history}";
    u "";
    u "Question: {input}";
    u "{agent_scratchpad}" ].

(** What the [except Exception] clause returns. *)
Definition failure (e : PyException) : pyval :=
  VDict {[ u "success" := VBool false; u "error" := VTuple (exc_args e) ]}.

(** The body of the [try] block. *)
Definition run_body (prompt : str) (chat_history : list str)
    (tool_names : list str) (actor : str) (max_iterations : Z)
    (thoughts_cb : option (str -> M W unit)) : M W pyval :=
  template ← lift (format_map_SafeDict TEMPLATE {[ u "actor" := actor ]});
  llm ← ChatOpenAI 0;
  tools ← match tool_names with
          | [] => get_tools_by_query prompt llm
          | _ :: _ => get_tools tool_names llm
          end;
  let prompt_template := mkTemplate template tools chat_history thoughts_cb in
  let output_parser := parse in
  let llm_chain := mkChain llm prompt_template in
  let tool_names := name <$> tools in
  let agent :=
    mkAgent llm_chain output_parser [nl ++ u "Observation:"] tool_names in
  verbose ← is_dev_mode;
  let agent_executor := mkExecutor agent tools max_iterations true verbose in
  input ← lift (encode_protected_output prompt);
  result ← agent_executor_call agent_executor {[ u "input" := input ]};
  result ← lift (setitem result (u "success") (VBool true));
  ret result.

(** The entry point.  Its defaults are [actor = "assistant"],
    [max_iterations = 15] and no callback. *)
Definition handle_chat_with_agents (prompt : str) (chat_history : list str)
    (tool_names : list str) (actor : str) (max_iterations : Z)
    (thoughts_cb : option (str -> M W unit)) : M W pyval :=
  try_except
    (run_body prompt chat_history tool_names actor max_iterations thoughts_cb)
    (fun e w => (Returned (failure e), print_exc e w)).

(** The part of [run_body] before the executor is called: it builds the
    executor and its inputs. *)
Definition setup (prompt : str) (chat_history : list str)
    (tool_names : list str) (actor : str) (max_iterations : Z)
    (thoughts_cb : option (str -> M W unit))
  : M W (AgentExecutor * gmap str str) :=
  template ← lift (format_map_SafeDict TEMPLATE {[ u "actor" := actor ]});
  llm ← ChatOpenAI 0;
  tools ← match tool_names with
          | [] => get_tools_by_query prompt llm
          | _ :: _ => get_tools tool_names llm
          end;
  verbose ← is_dev_mode;
  input ← lift (encode_protected_output prompt);
  ret (mkExecutor
         (mkAgent
            (mkChain llm (mkTemplate template tools chat_history thoughts_cb))
            parse [nl ++ u "Observation:"] (name <$> tools))
         tools max_iterations true verbose,
       {[ u "input" := input ]}).

(** [rounds ex inputs n trace w n' trace' w']: from [n] iterations left,
    the trace [trace] and the world [w], the loop gets, through rounds that
    each run a tool, to [n'] iterations left, the trace [trace'] and the
    world [w']. *)
Inductive rounds (ex : AgentExecutor) (inputs : gmap str str)
  : nat -> list (AgentAction * str) -> W ->
    nat -> list (AgentAction * str) -> W -> Prop :=
| rounds_here n trace w : rounds ex inputs n trace w n trace w
| rounds_next n trace w messages w1 text w2 act t observation w3 n' trace' w' :
    format_messages str_format (prompt (llm_chain (agent ex))) trace inputs w
      = (Returned messages, w1) ->
    complete (llm (llm_chain (agent ex))) messages (stop (agent ex)) w1
      = (Returned text, w2) ->
    output_parser (agent ex) text = Returned (Action act) ->
    tool act ∈ allowed_tools (agent ex) ->
    find_tool (tool act) (executor_tools ex) = Some t ->
    func t (tool_input act) w2 = (Returned observation, w3) ->
    rounds ex inputs n (trace ++ [(act, py_str observation)]) w3 n' trace' w' ->
    rounds ex inputs (S n) trace w n' trace' w'.

End Run.

Arguments mkChain {W LLM} _ _.
Arguments llm {W LLM} _.
Arguments prompt {W LLM} _.
Arguments mkAgent {W LLM} _ _ _ _.
Arguments llm_chain {W LLM} _.
Arguments output_parser {W LLM} _.
Arguments stop {W LLM} _.
Arguments allowed_tools {W LLM} _.
Arguments mkExecutor {W LLM} _ _ _ _ _.
Arguments agent {W LLM} _.
Arguments executor_tools {W LLM} _.
Arguments max_iterations {W LLM} _.
Arguments return_intermediate_steps {W LLM} _.
Arguments verbose {W LLM} _.

(** ** The tool adapters ([tools/replicate.py]) *)

Module Replicate.
Section Adapters.
Context {W : Type}.

Inductive Output_Type := image | single_image | text | transcription | audio.

Definition output_type_str (t : Output_Type) : str :=
  match t with
  | image => u "image"
  | single_image => u "single_image"
  | text => u "text"
  | transcription => u "transcription"
  | audio => u "audio"
  end.

(** The helpers of [utils.helper] and [json.loads]. *)
Variable decode_protected_output : str -> outcome str.
Variable parse_json_string : str -> outcome pyval.
Variable json_loads : str -> outcome pyval.

(** The backend client: model lookup, version lookup, job creation, and the
    serialisation of the job just created. *)
Variables Model Version Prediction : Type.
Variable models_get : str -> M W Model.
Variable versions_get : Model -> str -> M W Version.
Variable predictions_create : Version -> pyval -> M W Prediction.
Variable prediction_json : Prediction -> outcome str.

Variable print_exc : PyException -> W -> W.

Definition success_result (prediction input : pyval)
    (model_name model_version : str) : pyval :=
  VDict {[ u "success" := VBool true;
           u "replicate" := prediction;
           u "input" := input;
           u "model" := VDict {[ u "name" := VStr model_name;
                                 u "version" := VStr model_version ]} ]}.

(** The body of the [try] block. *)
Definition prediction_body (model_name model_version query : str)
    (output_type : Output_Type) : M W pyval :=
  query ← lift (decode_protected_output query);
  input ← lift (parse_json_string query);
  model ← models_get model_name;
  version ← versions_get model model_version;
  prediction ← predictions_create version input;
  prediction ← lift (obind (prediction_json prediction) json_loads);
  prediction ← lift (setitem prediction (u "output_type")
                       (VStr (output_type_str output_type)));
  prediction ← lift (delitem prediction (u "version"));
  ret (success_result prediction input model_name model_version).

Definition create_prediction (model_name model_version query : str)
    (output_type : Output_Type) : M W pyval :=
  try_except
    (prediction_body model_name model_version query output_type)
    (fun e w => (Returned (failure e), print_exc e w)).

Definition stable_diffusion : Tool W :=
  tool_decorator (u "stable-diffusion") true
    (u "useful for when you need to create an image or imagine something. The input of this tool in json format only with prompt key as description of the image, num_outputs key as number of result in integer.")
    (fun query =>
       create_prediction (u "stability-ai/stable-diffusion")
         (u "db21e45d3f7023abc2a46ee38a23973f6dce16bb082a930b0c49861f96d1e5bf")
         query image).

Definition openjourney : Tool W :=
  tool_decorator (u "openjourney") true
    (u "Only useful for when you are asked to create an image, if you are not, don't use this tool. The input of this tool in json format only with prompt key as detailed description of the image, num_outputs key as number of result in integer.")
    (fun query =>
       create_prediction (u "prompthero/openjourney")
         (u "9936c2001faa2194a261c01381f90e65261879985476014a0a37a334593a05eb")
         query image).

Definition blip_2 : Tool W :=
  tool_decorator (u "blip-2") true
    (u "useful for when you need to answer a question about an image URL. The input of this tool in json format only with image key as image's URL only, question key as user's question.")
    (fun query =>
       create_prediction (u "andreasjansson/blip-2")
         (u "4b32258c42e9efd4288bb9910bc532a69727f9acd26aa08e175713a0a857a608")
         query text).

Definition img2prompt : Tool W :=
  tool_decorator (u "img2prompt") true
    (u "useful for when you need to get text prompt about an image URL. The input of this tool in json format only with image key as image's URL only.")
    (fun query =>
       create_prediction (u "methexis-inc/img2prompt")
         (u "50adaf2d3ad20a6f911a8a9e3ccf777b263b8596fbd2c8fc26e8888f8a0edbb5")
         query text).

Definition controlnet_hough : Tool W :=
  tool_decorator (u "controlnet-hough") true
    (u "useful for when you need to modify/edit an image URL. The input of this tool in json format only with image key as image's URL only, prompt key as user's prompt, num_samples key as number of result in string.")
    (fun query =>
       create_prediction (u "jagilley/controlnet-hough")
         (u "854e8727697a057c525cdb45ab037f64ecca770a1769cc52287c2e56472a247b")
         query image).

Definition controlnet_scribble : Tool W :=
  tool_decorator (u "controlnet-scribble") true
    (u "useful for when you need to modify/edit an scribbled drawings image URL to a new detailed images. The input of this tool in json format only with image key as image's URL only, prompt key as user's prompt, num_samples key as number of result in string.")
    (fun query =>
       create_prediction (u "jagilley/controlnet-scribble")
         (u "435061a1b5a4c1e26740464bf786efdfa9cb3a3ac488595a2de23e143fdb0117")
         query image).

Definition instruct_pix2pix : Tool W :=
  tool_decorator (u "instruct-pix2pix") true
    (u "useful for when you need to modify/edit an image URL with user instructions. The input of this tool in json format only with image key as image's URL only, prompt key as user's prompt, num_outputs key as number of result in integer.")
    (fun query =>
       create_prediction (u "timothybrooks/instruct-pix2pix")
         (u "30c1d0b916a6f8efce20493f5d61ee27491ab2a60437c13c588468b9810ec23f")
         query image).

Definition codeformer : Tool W :=
  tool_decorator (u "codeformer") true
    (u "useful for when you need to restore/enhance an image URL. The input of this tool in json format only with image key as image's URL only.")
    (fun query =>
       create_prediction (u "sczhou/codeformer")
         (u "7de2ea26c616d5bf2245ad0d5e24f0ff9a6204578a5c876db53142edd9d2cd56")
         query single_image).

Definition audio_ldm : Tool W :=
  tool_decorator (u "audio-ldm") true
    (u "useful for when you need to generate audio from user's instructions. The input of this tool in json format only with text key as user's prompt, duration key as duration of the audio in seconds in string format (if not mentioned set it to 5.0).")
    (fun query =>
       create_prediction (u "haoheliu/audio-ldm")
         (u "b61392adecdd660326fc9cfc5398182437dbe5e97b5decfb36e1a36de68b5b95")
         query audio).

Definition tools : list (Tool W) :=
  [ stable_diffusion; openjourney; blip_2; img2prompt; controlnet_hough;
    controlnet_scribble; instruct_pix2pix; codeformer; audio_ldm ].

(** The job-creation response of the backend for a payload: every step up
    to [json.loads] returns, and the response is a dictionary. *)
Definition backend_response (model_name model_version query : str) (w : W)
    (input : pyval) (response : gmap str pyval) (w' : W) : Prop :=
  exists q model version prediction serialised w1 w2,
    decode_protected_output query = Returned q /\
    parse_json_string q = Returned input /\
    models_get model_name w = (Returned model, w1) /\
    versions_get model model_version w1 = (Returned version, w2) /\
    predictions_create version input w2 = (Returned prediction, w') /\
    prediction_json prediction = Returned serialised /\
    json_loads serialised = Returned (VDict response).

(** What the response looks like when the adapter hands it on. *)
Definition tagged (tag : Output_Type) (response : gmap str pyval)
  : pyval :=
  VDict (delete (u "version")
           (<[u "output_type" := VStr (output_type_str tag)]> response)).

End Adapters.
End Replicate.

(** ** Concrete inputs, used to exercise the statements below *)

(** Two markers, after an action. *)
Definition two_answers : str :=
  u "Thought: done" ++ nl ++ u "Action: search" ++ nl ++ u "Action Input: x"
    ++ nl ++ u "Final Answer: A" ++ nl ++ u "Final Answer: B".

(** The example of the specification: a thought, an action and a quoted
    input followed by a line feed. *)
Definition quoted_action : str :=
  u "Thought: x" ++ nl ++ u "Action: search" ++ nl
    ++ u "Action Input: " ++ dq ++ u "hello world" ++ dq ++ nl.

(** A callback that records what it is told; the world is the record. *)
Definition recording_cb : str -> M (list str) unit :=
  fun told seen => (Returned tt, seen ++ [told]).

(** A stand-in for [str.format] that appends the scratchpad to the
    template. *)
Definition append_scratchpad (template : str) (kwargs : gmap str str)
  : outcome str :=
  match kwargs !! u "agent_scratchpad" with
  | Some pad => Returned (template ++ pad)
  | None => Raised (mkExc KeyError [VStr (u "agent_scratchpad")])
  end.

Definition demo_template (cb : option (str -> M (list str) unit))
  : CustomPromptTemplate (list str) :=
  mkTemplate (u "Question: hi" ++ nl) [] [] cb.

Definition one_step : list (AgentAction * str) :=
  [(mkAction (u "search") (u "cats") (u "Action: search"), u " found ")].

Definition another_step : AgentAction * str :=
  (mkAction (u "lookup") (u "dogs") (u "Action: lookup"), u "none").

(** The end of the run's template, with a history and without, and an
    input that quotes the label. *)
Definition history_template (history : list str) : CustomPromptTemplate unit :=
  mkTemplate (u "{chat_history}" ++ nl ++ nl ++ u "Question: {input}" ++ nl
                ++ u "{agent_scratchpad}")
    [] history None.

Definition two_lines : list str := [u "Human: hi"; u "AI: hello"].

(** A model that only thinks aloud. *)
Definition thinking : str := u "I am thinking...".

Definition keep_template (template : str) (_ : gmap str str) : outcome str :=
  Returned template.

Definition demo_handle (complete : unit -> list Message -> list str -> M unit str)
  : str -> list str -> list str -> str -> Z -> option (str -> M unit unit) ->
    M unit pyval :=
  handle_chat_with_agents append_scratchpad keep_template unit
    (fun _ => ret tt) complete (fun _ _ => ret []) (fun _ _ => ret [])
    Returned (ret false) (fun _ => []) (fun _ w => w).

(** The payload decoder accepts the empty object only; the backend answers
    every job with the same response. *)
Definition demo_parse_json (q : str) : outcome pyval :=
  if bool_decide (q = u "{}") then Returned (VDict ∅)
  else Raised (mkExc ValueError [VStr (u "Expecting value")]).

Definition demo_response : gmap str pyval :=
  {[ u "id" := VStr (u "p1");
     u "status" := VStr (u "starting");
     u "version" := VStr (u "db21e45d") ]}.

Definition demo_stable_diffusion : Tool unit :=
  Replicate.stable_diffusion Returned demo_parse_json
    (fun _ => Returned (VDict demo_response)) unit unit unit
    (fun _ => ret tt) (fun _ _ => ret tt) (fun _ _ => ret tt)
    (fun _ => Returned (u "{...}")) (fun _ w => w).

Definition demo_adapters : list (Tool unit) :=
  Replicate.tools Returned demo_parse_json
    (fun _ => Returned (VDict demo_response)) unit unit unit
    (fun _ => ret tt) (fun _ _ => ret tt) (fun _ _ => ret tt)
    (fun _ => Returned (u "{...}")) (fun _ w => w).

Definition demo_result : pyval :=
  VDict {[ u "success" := VBool true;
           u "replicate" :=
             VDict {[ u "id" := VStr (u "p1");
                      u "status" := VStr (u "starting");
                      u "output_type" := VStr (u "image") ]};
           u "input" := VDict ∅;
           u "model" :=
             VDict {[ u "name" := VStr (u "stability-ai/stable-diffusion");
                      u "version" :=
                        VStr (u "db21e45d3f7023abc2a46ee38a23973f6dce16bb082a930b0c49861f96d1e5bf") ]} ]}.

(** * Properties *)

(** ** Strings *)

Section StringFacts.
Implicit Types (s sub pre post : str) (c : char) (p : char -> bool).

Lemma strip_prefix_Some pre s r : strip_prefix pre s = Some r <-> s = pre ++ r.
Proof.
  revert s. induction pre as [|q pre IH]; intros s; simpl.
  - split; congruence.
  - destruct s as [|c s]; [split; discriminate|].
    destruct (N.eqb_spec c q) as [->|Hne].
    + rewrite IH. split; [intros ->; reflexivity | intros [= ->]; reflexivity].
    + split; [discriminate | intros [= ? ?]; contradiction].
Qed.

Lemma strip_prefix_app pre r : strip_prefix pre (pre ++ r) = Some r.
Proof. apply strip_prefix_Some. reflexivity. Qed.

Lemma startswith_true s pre : startswith s pre = true <-> exists r, s = pre ++ r.
Proof.
  unfold startswith. destruct (strip_prefix pre s) as [r|] eqn:E.
  - apply strip_prefix_Some in E. split; eauto.
  - split; [discriminate|]. intros [r Hr].
    apply strip_prefix_Some in Hr. congruence.
Qed.


Lemma occurs_0 s sub : occurs s sub 0 <-> startswith s sub = true.
Proof.
  rewrite startswith_true. split.
  - intros (a & b & -> & Ha). destruct a; [|discriminate]. eauto.
  - intros [r ->]. exists [], r. split; reflexivity.
Qed.

Lemma occurs_S c s sub i : occurs (c :: s) sub (S i) <-> occurs s sub i.
Proof.
  split.
  - intros (a & b & E & Ha). destruct a as [|c' a]; [discriminate|].
    injection E as -> ->. injection Ha as Ha. exists a, b. split; [reflexivity | exact Ha].
  - intros (a & b & -> & Ha). exists (c :: a), b. split; [reflexivity | simpl; congruence].
Qed.

Lemma occurs_nil sub i : occurs [] sub i -> i = 0.
Proof. intros (a & b & E & Ha). destruct a; [auto | discriminate]. Qed.

(** [find] returns the first occurrence. *)
Lemma find_spec s sub :
  match find s sub with
  | Some i => occurs s sub i /\ forall j, occurs s sub j -> i <= j
  | None => forall j, ~ occurs s sub j
  end.
Proof.
  induction s as [|c s IH]; cbn [find].
  - destruct (startswith [] sub) eqn:E.
    + split; [apply occurs_0; exact E | intros; lia].
    + intros j H. pose proof (occurs_nil _ _ H) as ->.
      apply occurs_0 in H. congruence.
  - destruct (startswith (c :: s) sub) eqn:E.
    + split; [apply occurs_0; exact E | intros; lia].
    + destruct (find s sub) as [k|]; simpl.
      * destruct IH as [Hk Hmin]. split; [apply occurs_S; exact Hk|].
        intros [|j] Hj; [apply occurs_0 in Hj; congruence|].
        apply occurs_S in Hj. apply Hmin in Hj. lia.
      * intros [|j] Hj; [apply occurs_0 in Hj; congruence|].
        apply occurs_S in Hj. exact (IH _ Hj).
Qed.

Lemma find_Some s sub i :
  find s sub = Some i <->
  occurs s sub i /\ forall j, occurs s sub j -> i <= j.
Proof.
  pose proof (find_spec s sub) as H. destruct (find s sub) as [k|].
  - destruct H as [Hk Hmin]. split.
    + intros [= <-]. auto.
    + intros [Hi Hmin']. f_equal. apply Hmin in Hi. apply Hmin' in Hk. lia.
  - split; [discriminate|]. intros [Hi _]. destruct (H _ Hi).
Qed.

Lemma find_None s sub : find s sub = None <-> forall j, ~ occurs s sub j.
Proof.
  pose proof (find_spec s sub) as H. destruct (find s sub) as [k|].
  - split; [discriminate|]. intros Hno. destruct (Hno k). apply H.
  - split; auto.
Qed.

(** [rfind] returns the last occurrence. *)
Lemma rfind_spec s sub :
  match rfind s sub with
  | Some i => occurs s sub i /\ forall j, occurs s sub j -> j <= i
  | None => forall j, ~ occurs s sub j
  end.
Proof.
  induction s as [|c s IH]; cbn [rfind].
  - destruct (startswith [] sub) eqn:E.
    + split; [apply occurs_0; exact E|].
      intros j H. apply occurs_nil in H. lia.
    + intros j H. pose proof (occurs_nil _ _ H) as ->.
      apply occurs_0 in H. congruence.
  - destruct (rfind s sub) as [k|].
    + destruct IH as [Hk Hmax]. split; [apply occurs_S; exact Hk|].
      intros [|j] Hj; [lia|]. apply occurs_S in Hj. apply Hmax in Hj. lia.
    + destruct (startswith (c :: s) sub) eqn:E.
      * split; [apply occurs_0; exact E|].
        intros [|j] Hj; [lia|]. apply occurs_S in Hj. destruct (IH _ Hj).
      * intros [|j] Hj; [apply occurs_0 in Hj; congruence|].
        apply occurs_S in Hj. exact (IH _ Hj).
Qed.

Lemma rfind_Some s sub i :
  rfind s sub = Some i <->
  occurs s sub i /\ forall j, occurs s sub j -> j <= i.
Proof.
  pose proof (rfind_spec s sub) as H. destruct (rfind s sub) as [k|].
  - destruct H as [Hk Hmax]. split.
    + intros [= <-]. auto.
    + intros [Hi Hmax']. f_equal. apply Hmax in Hi. apply Hmax' in Hk. lia.
  - split; [discriminate|]. intros [Hi _]. destruct (H _ Hi).
Qed.

(** [sub in s] holds exactly when [sub] occurs somewhere in [s]. *)
Lemma contains_true sub s :
  contains sub s = true <-> exists a b, s = a ++ sub ++ b.
Proof.
  unfold contains. pose proof (find_spec s sub) as H.
  destruct (find s sub) as [k|].
  - destruct H as [(a & b & E & _) _]. split; eauto.
  - split; [discriminate|]. intros (a & b & E).
    destruct (H (length a)). exists a, b. auto.
Qed.

Lemma contains_rfind sub s :
  contains sub s = true <-> exists i, rfind s sub = Some i.
Proof.
  rewrite contains_true. pose proof (rfind_spec s sub) as H.
  destruct (rfind s sub) as [k|].
  - destruct H as [(a & b & E & _) _]. split; eauto.
  - split; [|intros [i [=]]]. intros (a & b & E).
    destruct (H (length a)). exists a, b. auto.
Qed.

Lemma occurs_drop s sub i :
  occurs s sub i <-> i <= length s /\ exists b, drop i s = sub ++ b.
Proof.
  split.
  - intros (a & b & -> & <-). split; [rewrite length_app; lia|].
    exists b. apply drop_app_length.
  - intros [Hi [b Hb]]. exists (take i s), b. split.
    + rewrite <- Hb. symmetry. apply take_drop.
    + apply length_take_le. exact Hi.
Qed.

Lemma occurs_bound s sub i : occurs s sub i -> i + length sub <= length s.
Proof. intros (a & b & -> & <-). rewrite !length_app. lia. Qed.


Lemma unbordered_no_overlap m s i j :
  unbordered m = true -> occurs s m i -> occurs s m j -> i < j ->
  i + length m <= j.
Proof.
  intros Hm Hi Hj Hlt.
  destruct (decide (i + length m <= j)) as [|Hov]; [assumption|exfalso].
  apply occurs_drop in Hi as [_ [b Hb]]. apply occurs_drop in Hj as [_ [b' Hb']].
  set (k := i + length m - j).
  assert (Hk : has_border m k = true).
  { apply bool_decide_eq_true.
    replace (length m - k) with (j - i) by lia.
    assert (E : drop (j - i) m ++ b = m ++ b').
    { rewrite <- Hb', <- (drop_app_le m b) by lia. rewrite <- Hb, drop_drop.
      f_equal. lia. }
    apply (f_equal (take k)) in E.
    rewrite take_app_le in E by (rewrite length_drop; lia).
    rewrite take_ge in E by (rewrite length_drop; lia).
    rewrite take_app_le in E by lia. congruence. }
  unfold unbordered in Hm. rewrite forallb_forall in Hm.
  specialize (Hm k). rewrite Hk in Hm. simpl in Hm.
  assert (In k (seq 1 (length m - 1))) by (apply in_seq; lia).
  specialize (Hm H). discriminate.
Qed.

(** With enough rounds, [split_fuel] ends with what follows the last
    occurrence of a separator that cannot overlap itself. *)
Lemma split_fuel_last m n s i :
  unbordered m = true -> 0 < length m ->
  rfind s m = Some i -> length s <= n ->
  last (split_fuel n s m) = Some (drop (i + length m) s).
Proof.
  intros Hm Hlen. revert s i.
  induction n as [|n IH]; intros s i Hr Hn; apply rfind_Some in Hr as [Hi Hmax].
  - apply occurs_bound in Hi. lia.
  - cbn [split_fuel]. pose proof (find_spec s m) as Hf.
    destruct (find s m) as [k|]; [|destruct (Hf _ Hi)].
    destruct Hf as [Hk Hmin]. pose proof (Hmin _ Hi) as Hki.
    pose proof (occurs_bound _ _ _ Hk) as Hkb.
    assert (Hnext : forall j, occurs (drop (k + length m) s) m j <->
                              occurs s m (k + length m + j)).
    { intros j. rewrite !occurs_drop, length_drop, drop_drop.
      split; intros [? ?]; (split; [lia | assumption]). }
    destruct (decide (k = i)) as [->|Hne].
    + assert (Hnone : find (drop (i + length m) s) m = None).
      { apply find_None. intros j Hj. apply Hnext, Hmax in Hj. lia. }
      destruct n as [|n]; cbn [split_fuel]; [reflexivity|].
      rewrite Hnone. reflexivity.
    + assert (k + length m <= i)
        by (apply (unbordered_no_overlap m s); auto; lia).
      specialize (IH (drop (k + length m) s) (i - (k + length m))).
      rewrite last_cons, IH.
      * rewrite drop_drop. f_equal. f_equal. lia.
      * apply rfind_Some. split.
        -- apply Hnext. replace (k + length m + (i - (k + length m))) with i by lia.
           exact Hi.
        -- intros j Hj. apply Hnext, Hmax in Hj. lia.
      * rewrite length_drop. lia.
Qed.

Lemma split_fuel_nonempty n s m : split_fuel n s m <> [].
Proof. destruct n; simpl; [|destruct (find s m)]; discriminate. Qed.

(** [length s] rounds are enough: more rounds give the same pieces. *)
Lemma split_fuel_enough sep s n m :
  0 < length sep -> length s <= n -> length s <= m ->
  split_fuel n s sep = split_fuel m s sep.
Proof.
  intros Hsep. revert s m. induction n as [|n IH]; intros s m Hn Hm.
  - destruct s; [|simpl in Hn; lia].
    destruct m; cbn [split_fuel]; [reflexivity|].
    pose proof (find_spec [] sep) as Hf. destruct (find [] sep); [|reflexivity].
    destruct Hf as [Hf _]. apply occurs_bound in Hf. simpl in Hf. lia.
  - cbn [split_fuel]. pose proof (find_spec s sep) as Hf.
    destruct (find s sep) as [i|] eqn:E.
    + destruct Hf as [Hf _]. apply occurs_bound in Hf.
      destruct m as [|m]; [lia|]. cbn [split_fuel]. rewrite E. f_equal.
      apply IH; rewrite length_drop; lia.
    + destruct m; cbn [split_fuel]; [|rewrite E]; reflexivity.
Qed.

(** So [split_fuel (length s)] satisfies the equation of [str.split]: cut
    at the first occurrence, split what follows it. *)
Lemma split_fuel_unfold sep s :
  0 < length sep ->
  split_fuel (length s) s sep =
  match find s sep with
  | Some i =>
      let rest := drop (i + length sep) s in
      take i s :: split_fuel (length rest) rest sep
  | None => [s]
  end.
Proof.
  intros Hsep. pose proof (find_spec s sep) as Hf.
  destruct (find s sep) as [i|] eqn:E.
  - destruct Hf as [Hf _]. apply occurs_bound in Hf.
    destruct (length s) as [|n] eqn:Hl; [lia|].
    cbn [split_fuel]. rewrite E. cbn zeta. f_equal.
    apply split_fuel_enough; [exact Hsep | rewrite length_drop; lia | lia].
  - destruct (length s); cbn [split_fuel]; [|rewrite E]; reflexivity.
Qed.

End StringFacts.

Section StripFacts.
Implicit Types (s a t b : str) (c : char) (p : char -> bool).

Lemma drop_while_all p a : forallb p a = true -> drop_while p a = [].
Proof.
  induction a as [|c a IH]; simpl; [reflexivity|].
  intros [Hc Ha]%andb_prop. rewrite Hc. auto.
Qed.

Lemma drop_while_app p a t :
  forallb p a = true -> drop_while p (a ++ t) = drop_while p t.
Proof.
  induction a as [|c a IH]; simpl; [reflexivity|].
  intros [Hc Ha]%andb_prop. rewrite Hc. auto.
Qed.

Lemma drop_while_stop p t :
  (forall c, head t = Some c -> p c = false) -> drop_while p t = t.
Proof.
  destruct t as [|c t]; simpl; [reflexivity|].
  intros H. rewrite (H c eq_refl). reflexivity.
Qed.

(** [strip_by p] removes exactly the surrounding characters that satisfy
    [p]: what is left neither starts nor ends with one. *)
Lemma strip_by_spec p a t b :
  forallb p a = true -> forallb p b = true ->
  (forall c, head t = Some c -> p c = false) ->
  (forall c, last t = Some c -> p c = false) ->
  strip_by p (a ++ t ++ b) = t.
Proof.
  intros Ha Hb Hhd Hlast. unfold strip_by, lstrip_by, rstrip_by.
  rewrite drop_while_app by exact Ha.
  destruct t as [|c t].
  - simpl. rewrite (drop_while_all p b Hb). reflexivity.
  - rewrite (drop_while_stop p ((c :: t) ++ b)) by (intros c'; apply Hhd).
    rewrite reverse_app, drop_while_app.
    + rewrite drop_while_stop; [apply reverse_involutive|].
      intros c'. rewrite <- last_reverse, reverse_involutive. apply Hlast.
    + rewrite forallb_forall in *. intros x Hx. apply Hb.
      apply list_elem_of_In. apply list_elem_of_In in Hx.
      rewrite elem_of_reverse in Hx. exact Hx.
Qed.

Lemma strip_all_space ws : forallb is_space ws = true -> strip ws = [].
Proof.
  intros H. unfold strip.
  rewrite <- (app_nil_r ws). apply (strip_by_spec is_space ws [] []); auto; discriminate.
Qed.

End StripFacts.

(** ** The output parser *)

Lemma FINAL_ANSWER_unbordered : unbordered FINAL_ANSWER = true.
Proof. vm_compute. reflexivity. Qed.

Lemma FINAL_ANSWER_length : length FINAL_ANSWER = 13.
Proof. reflexivity. Qed.

(** On a text that holds the marker, [parse] returns what follows the last
    one, stripped. *)
Lemma parse_at_last_marker llm_output i :
  rfind llm_output FINAL_ANSWER = Some i ->
  parse llm_output =
  Returned (Finish (mkFinish
    {[ u "output" := VStr (strip (drop (i + length FINAL_ANSWER) llm_output)) ]}
    llm_output)).
Proof.
  intros Hi. unfold parse.
  assert (Hc : contains FINAL_ANSWER llm_output = true)
    by (apply contains_rfind; eauto).
  rewrite Hc. unfold split. change FINAL_ANSWER with (70%N :: tail FINAL_ANSWER) at 1.
  cbn [obind]. unfold getitem_last.
  change (70%N :: tail FINAL_ANSWER) with FINAL_ANSWER.
  rewrite (split_fuel_last FINAL_ANSWER _ _ i); auto using FINAL_ANSWER_unbordered.
  rewrite FINAL_ANSWER_length. lia.
Qed.

(** C1: a model output that contains the marker "Final Answer:" parses to a
    final answer whose text is the substring after the last occurrence of
    the marker, stripped of surrounding whitespace; it is never parsed as an
    action, whatever else the text holds. *)
Theorem parse_final_answer (llm_output : str) :
  contains FINAL_ANSWER llm_output = true ->
  exists i,
    rfind llm_output FINAL_ANSWER = Some i /\
    parse llm_output =
      Returned (Finish (mkFinish
        {[ u "output" :=
             VStr (strip (drop (i + length FINAL_ANSWER) llm_output)) ]}
        llm_output)) /\
    forall a, parse llm_output <> Returned (Action a).
Proof.
  intros [i Hi]%contains_rfind. exists i.
  pose proof (parse_at_last_marker _ _ Hi) as Hp.
  repeat split; [exact Hi | exact Hp |]. intros a. rewrite Hp. discriminate.
Qed.


Lemma parse_final_answer_witness :
  contains FINAL_ANSWER two_answers = true /\
  parse two_answers =
    Returned (Finish (mkFinish {[ u "output" := VStr (u "B") ]} two_answers)).
Proof.
  split; [reflexivity|].
  destruct (parse_final_answer two_answers eq_refl) as (i & Hi & Hp & _).
  rewrite Hp. vm_compute in Hi. injection Hi as <-. reflexivity.
Defined.

(** C10: on a text that contains the marker, [parse] never raises: it
    returns a final answer; when nothing but whitespace (or nothing at all)
    follows the marker, the answer text is the empty string. *)
Theorem parse_final_answer_never_raises (llm_output : str) :
  (exists pre post, llm_output = pre ++ FINAL_ANSWER ++ post) ->
  (exists answer,
     parse llm_output =
       Returned (Finish (mkFinish {[ u "output" := VStr answer ]} llm_output))) /\
  (forall pre ws,
     llm_output = pre ++ FINAL_ANSWER ++ ws -> forallb is_space ws = true ->
     parse llm_output =
       Returned (Finish (mkFinish {[ u "output" := VStr [] ]} llm_output))).
Proof.
  intros Hocc. split.
  - apply contains_true, contains_rfind in Hocc as [i Hi].
    rewrite (parse_at_last_marker _ _ Hi). eauto.
  - clear Hocc. intros pre ws -> Hws.
    assert (Hr : rfind (pre ++ FINAL_ANSWER ++ ws) FINAL_ANSWER = Some (length pre)).
    { apply rfind_Some.
      assert (Hhere : occurs (pre ++ FINAL_ANSWER ++ ws) FINAL_ANSWER (length pre))
        by (exists pre, ws; auto).
      split; [exact Hhere|]. intros j Hj.
      destruct (decide (j <= length pre)) as [|Hgt]; [assumption|exfalso].
      assert (Hge : length pre + length FINAL_ANSWER <= j)
        by (apply (unbordered_no_overlap _ _ _ _ FINAL_ANSWER_unbordered Hhere Hj); lia).
      apply occurs_drop in Hj as [_ [b Hb]].
      rewrite app_assoc, drop_app_ge in Hb by (rewrite length_app; lia).
      assert (Hin : In 70%N ws).
      { rewrite <- (take_drop (j - length (pre ++ FINAL_ANSWER)) ws), Hb.
        apply in_or_app. right. left. reflexivity. }
      rewrite forallb_forall in Hws. apply Hws in Hin. discriminate. }
    rewrite (parse_at_last_marker _ _ Hr).
    rewrite app_assoc, drop_app_length' by (rewrite length_app; reflexivity).
    rewrite strip_all_space by exact Hws. reflexivity.
Qed.

Lemma parse_final_answer_never_raises_witness :
  parse (u "Thought: I know" ++ nl ++ u "Final Answer:") =
    Returned (Finish (mkFinish {[ u "output" := VStr [] ]}
                        (u "Thought: I know" ++ nl ++ u "Final Answer:"))).
Proof.
  refine (proj2 (parse_final_answer_never_raises
                   (u "Thought: I know" ++ nl ++ u "Final Answer:") _)
                (u "Thought: I know" ++ nl) [] _ _).
  - exists (u "Thought: I know" ++ nl), []. reflexivity.
  - reflexivity.
  - reflexivity.
Defined.

(** *** The pattern matcher *)

Section MatcherFacts.
Implicit Types (s t g name nls ws rest seen : str).

Lemma match_input_app x :
  match_input (ACTION_INPUT ++ x) = Some (drop_while is_space x).
Proof. unfold match_input. rewrite strip_prefix_app. reflexivity. Qed.

Lemma match_input_Some s g :
  match_input s = Some g ->
  exists x, s = ACTION_INPUT ++ x /\ g = drop_while is_space x.
Proof.
  unfold match_input. destruct (strip_prefix ACTION_INPUT s) as [x|] eqn:E;
    [|discriminate].
  apply strip_prefix_Some in E. intros [= <-]. eauto.
Qed.

(** The run of line feeds before the literal is the whole run: the literal
    does not start with a line feed. *)
Lemma match_newlines_app nls x :
  forallb (N.eqb LF) nls = true ->
  match_newlines (nls ++ ACTION_INPUT ++ x) = Some (drop_while is_space x).
Proof.
  induction nls as [|c nls IH]; intros H.
  - apply match_input_app.
  - cbn [forallb] in H. apply andb_prop in H as [Hc Hn].
    apply N.eqb_eq in Hc as <-.
    change ((LF :: nls) ++ ACTION_INPUT ++ x)
      with (LF :: (nls ++ ACTION_INPUT ++ x)).
    cbn [match_newlines]. rewrite N.eqb_refl, IH by exact Hn. reflexivity.
Qed.

Lemma match_newlines_Some s g :
  match_newlines s = Some g ->
  exists nls x,
    s = nls ++ ACTION_INPUT ++ x /\ forallb (N.eqb LF) nls = true /\
    g = drop_while is_space x.
Proof.
  revert g. induction s as [|c s IH]; intros g; cbn [match_newlines].
  - intros (x & E & ->)%match_input_Some. exists [], x. auto.
  - destruct (N.eqb_spec c LF) as [->|Hne].
    + destruct (match_newlines s) as [g'|].
      * intros [= <-]. destruct (IH _ eq_refl) as (nls & x & -> & Hn & ->).
        exists (LF :: nls), x. repeat split. simpl. rewrite Hn. reflexivity.
      * intros (x & E & ->)%match_input_Some. exists [], x. auto.
    + intros (x & E & ->)%match_input_Some. exists [], x. auto.
Qed.

(** The lazy group takes the shortest capture after which the rest of the
    pattern matches. *)
Lemma match_name_app seen name t g :
  (forall k, k < length name -> match_newlines (drop k (name ++ t)) = None) ->
  match_newlines t = Some g ->
  match_name seen (name ++ t) = Some (reverse seen ++ name, g).
Proof.
  revert seen. induction name as [|c name IH]; intros seen Hshort Ht.
  - cbn [app]. destruct t; cbn [match_name]; rewrite Ht, app_nil_r; reflexivity.
  - change ((c :: name) ++ t) with (c :: (name ++ t)) in *.
    cbn [match_name]. pose proof (Hshort 0 ltac:(simpl; lia)) as H0.
    rewrite drop_0 in H0. rewrite H0.
    rewrite IH; [|intros k Hk; apply (Hshort (S k)); simpl; lia | exact Ht].
    rewrite reverse_cons, <- app_assoc. reflexivity.
Qed.

Lemma match_name_Some seen s g1 g2 :
  match_name seen s = Some (g1, g2) ->
  exists k, k <= length s /\ match_newlines (drop k s) = Some g2.
Proof.
  revert seen. induction s as [|c s IH]; intros seen; cbn [match_name].
  - destruct (match_newlines []) eqn:E; [|discriminate].
    intros [= <- <-]. exists 0. auto.
  - destruct (match_newlines (c :: s)) eqn:E.
    + intros [= <- <-]. exists 0. split; [lia | exact E].
    + intros (k & Hk & Hm)%IH. exists (S k). split; [simpl; lia | exact Hm].
Qed.

Lemma match_name_None seen s :
  match_name seen s = None ->
  forall k, k <= length s -> match_newlines (drop k s) = None.
Proof.
  revert seen. induction s as [|c s IH]; intros seen; cbn [match_name].
  - destruct (match_newlines []) eqn:E; [discriminate|].
    intros _ k Hk. destruct k; exact E.
  - destruct (match_newlines (c :: s)) eqn:E; [discriminate|].
    intros H [|k] Hk; [exact E|]. apply (IH _ H). simpl in Hk. lia.
Qed.

(** [re_search] skips the positions where the pattern does not start. *)
Lemma re_search_skip a s :
  (forall k, k < length a -> match_here (drop k (a ++ s)) = None) ->
  re_search (a ++ s) = re_search s.
Proof.
  induction a as [|c a IH]; intros H; [reflexivity|].
  change ((c :: a) ++ s) with (c :: (a ++ s)) in *.
  cbn [re_search]. pose proof (H 0 ltac:(simpl; lia)) as H0.
  rewrite drop_0 in H0. rewrite H0.
  apply IH. intros k Hk. apply (H (S k)). simpl. lia.
Qed.

Lemma re_search_here s m : match_here s = Some m -> re_search s = Some m.
Proof. intros H. destruct s; cbn [re_search]; rewrite H; reflexivity. Qed.

Lemma re_search_Some s m :
  re_search s = Some m ->
  exists k, k <= length s /\ match_here (drop k s) = Some m.
Proof.
  induction s as [|c s IH]; cbn [re_search].
  - destruct (match_here []) eqn:E; [|discriminate].
    intros [= <-]. exists 0. auto.
  - destruct (match_here (c :: s)) eqn:E.
    + intros [= <-]. exists 0. split; [lia | exact E].
    + intros (k & Hk & Hm)%IH. exists (S k). split; [simpl; lia | exact Hm].
Qed.

Lemma re_search_None s :
  re_search s = None ->
  forall k, k <= length s -> match_here (drop k s) = None.
Proof.
  induction s as [|c s IH]; cbn [re_search].
  - destruct (match_here []) eqn:E; [discriminate|].
    intros _ k Hk. destruct k; exact E.
  - destruct (match_here (c :: s)) eqn:E; [discriminate|].
    intros H [|k] Hk; [exact E|]. apply (IH H). simpl in Hk. lia.
Qed.

(** The pattern has a match exactly when the text holds the literal
    [ACTION] and, somewhere after it, the literal [ACTION_INPUT]. *)
Lemma re_search_None_iff s :
  re_search s = None <->
  ~ exists a b c, s = a ++ ACTION ++ b ++ ACTION_INPUT ++ c.
Proof.
  split.
  - intros Hnone (a & b & c & ->).
    pose proof (re_search_None _ Hnone (length a)) as H.
    rewrite drop_app_length in H. unfold match_here in H.
    specialize (H ltac:(rewrite length_app; lia)).
    rewrite strip_prefix_app in H.
    change (match_name [] (b ++ ACTION_INPUT ++ c) = None) in H.
    pose proof (match_name_None _ _ H (length b)
                  ltac:(rewrite length_app; lia)) as H'.
    rewrite drop_app_length in H'.
    pose proof (match_newlines_app [] c eq_refl) as Hm. cbn [app] in Hm.
    congruence.
  - intros Hno. destruct (re_search s) as [[g1 g2]|] eqn:E; [|reflexivity].
    exfalso. apply Hno.
    apply re_search_Some in E as (k & Hk & E). unfold match_here in E.
    destruct (strip_prefix ACTION (drop k s)) as [t|] eqn:Et; [|discriminate].
    apply strip_prefix_Some in Et.
    change (match_name [] t = Some (g1, g2)) in E.
    apply match_name_Some in E as (j & Hj & E).
    apply match_newlines_Some in E as (nls & x & E & _ & _).
    exists (take k s), (take j t ++ nls), x.
    replace ((take j t ++ nls) ++ ACTION_INPUT ++ x) with t
      by (rewrite <- app_assoc, <- E; symmetry; apply take_drop).
    rewrite <- Et. symmetry. apply take_drop.
Qed.

End MatcherFacts.

Section ActionFacts.
Implicit Types (s t name nls ws rest : str).

Lemma all_LF_lookup nls j c :
  forallb (N.eqb LF) nls = true -> nls !! j = Some c -> c = LF.
Proof.
  intros H Hj. rewrite forallb_forall in H.
  apply list_elem_of_lookup_2, list_elem_of_In, H in Hj.
  apply N.eqb_eq in Hj. congruence.
Qed.

(** Where the pattern matches and what it captures: the match starts at the
    first [ACTION]; group 1 runs up to the line feeds that precede the first
    [ACTION_INPUT] after it; group 2 is what follows that literal and the
    whitespace after it. *)
Lemma re_search_action s i name nls ws rest :
  find s ACTION = Some i ->
  drop (i + length ACTION) s = name ++ nls ++ ACTION_INPUT ++ ws ++ rest ->
  find (drop (i + length ACTION) s) ACTION_INPUT
    = Some (length name + length nls) ->
  forallb (N.eqb LF) nls = true ->
  last name <> Some LF ->
  forallb is_space ws = true ->
  (forall c, head rest = Some c -> is_space c = false) ->
  re_search s = Some (name, rest).
Proof.
  intros Hfind Ht Hfirst Hnls Hname Hws Hrest.
  apply find_Some in Hfind as [Hocc Hmin].
  apply occurs_drop in Hocc as [Hi [t Hdrop]].
  assert (Et : drop (i + length ACTION) s = t).
  { rewrite <- drop_drop, Hdrop. apply drop_app_length. }
  rewrite Et in Ht, Hfirst. clear Et.
  rewrite <- (take_drop i s), re_search_skip.
  - apply re_search_here. rewrite Hdrop. unfold match_here.
    rewrite strip_prefix_app.
    change (match_name [] t = Some (name, rest)).
    rewrite Ht. rewrite (match_name_app [] name _ rest); [reflexivity| |].
    + intros k Hk.
      destruct (match_newlines (drop k (name ++ nls ++ ACTION_INPUT ++ ws ++ rest)))
        as [g|] eqn:E; [exfalso|reflexivity].
      rewrite <- Ht in E.
      apply match_newlines_Some in E as (nls' & x & E & Hnls' & _).
      apply find_Some in Hfirst as [_ Hmin'].
      assert (Hk' : k + length nls' + length ACTION_INPUT <= length t).
      { assert (length name <= length t) by (rewrite Ht, length_app; lia).
        apply (f_equal length) in E.
        rewrite length_drop, !length_app in E. lia. }
      assert (Hge : length name + length nls <= k + length nls').
      { apply Hmin'. apply occurs_drop. split; [lia|]. exists x.
        rewrite <- drop_drop, E. apply drop_app_length. }
      apply Hname. rewrite last_lookup.
      assert (Hl : (drop k t) !! (pred (length name) - k)
                   = name !! pred (length name)).
      { rewrite lookup_drop, Ht, lookup_app_l by lia. f_equal. lia. }
      rewrite <- Hl, E, lookup_app_l by lia.
      destruct (nls' !! (pred (length name) - k)) as [c|] eqn:Ec.
      * f_equal. eapply all_LF_lookup; eauto.
      * apply lookup_ge_None in Ec. lia.
    + rewrite match_newlines_app by exact Hnls.
      rewrite drop_while_app by exact Hws.
      rewrite drop_while_stop by exact Hrest. reflexivity.
  - intros k Hk. rewrite length_take in Hk. rewrite take_drop.
    unfold match_here.
    destruct (strip_prefix ACTION (drop k s)) as [r|] eqn:E; [exfalso|reflexivity].
    apply strip_prefix_Some in E.
    assert (occurs s ACTION k) by (apply occurs_drop; split; [lia | eauto]).
    apply Hmin in H. lia.
Qed.

End ActionFacts.

(** C2, as the code has it: a model output without the marker
    "Final Answer:" that matches the action pattern parses to an action whose
    tool name is group 1 stripped of whitespace and whose tool input is
    group 2 with its leading and trailing space characters (U+0020 only)
    removed and then all its leading and trailing double quotes removed.
    The groups are pinned down by the first "Action: ", the first
    "Action Input:" after it, the line feeds before and the whitespace after
    that literal. *)
Theorem parse_action (llm_output : str) (i : nat) (name nls ws rest : str) :
  contains FINAL_ANSWER llm_output = false ->
  find llm_output ACTION = Some i ->
  drop (i + length ACTION) llm_output
    = name ++ nls ++ ACTION_INPUT ++ ws ++ rest ->
  find (drop (i + length ACTION) llm_output) ACTION_INPUT
    = Some (length name + length nls) ->
  forallb (N.eqb LF) nls = true ->
  last name <> Some LF ->
  forallb is_space ws = true ->
  (forall c, head rest = Some c -> is_space c = false) ->
  parse llm_output =
    Returned (Action (mkAction
      (strip name)
      (strip_by (N.eqb DQUOTE) (strip_by (N.eqb SPACE) rest))
      llm_output)).
Proof.
  intros Hfa Hfind Ht Hfirst Hnls Hname Hws Hrest. unfold parse.
  rewrite Hfa, (re_search_action _ _ _ _ _ _ Hfind Ht Hfirst Hnls Hname Hws Hrest).
  unfold strip_chars. do 3 f_equal.
  assert (Hmem : forall x s, strip_by (mem [x]) s = strip_by (N.eqb x) s).
  { intros x s. unfold strip_by, lstrip_by, rstrip_by.
    assert (Hd : forall l, drop_while (mem [x]) l = drop_while (N.eqb x) l).
    { induction l as [|c l IH]; simpl; [reflexivity|].
      rewrite orb_false_r, N.eqb_sym, IH. reflexivity. }
    rewrite !Hd. reflexivity. }
  unfold dq. rewrite !Hmem. reflexivity.
Qed.


Lemma parse_action_witness :
  parse quoted_action =
    Returned (Action (mkAction (u "search") (u "hello world" ++ dq ++ nl)
                        quoted_action)).
Proof.
  refine (parse_action quoted_action 11 (u "search") nl (u " ")
            (dq ++ u "hello world" ++ dq ++ nl) _ _ _ _ _ _ _ _).
  - reflexivity.
  - reflexivity.
  - reflexivity.
  - reflexivity.
  - reflexivity.
  - discriminate.
  - reflexivity.
  - intros c [= <-]. reflexivity.
Defined.

(** C2 as stated fails on its own example: the line feed after the closing
    quote is not a space character, so it stays, and the closing quote
    behind it stays too. *)
Lemma parse_action_counterexample :
  parse quoted_action <>
    Returned (Action (mkAction (u "search") (u "hello world") quoted_action)).
Proof. vm_compute. discriminate. Qed.

(** More than one quote on each side goes as well. *)
Example parse_action_two_layers :
  parse (u "Action: search" ++ nl ++ u "Action Input: "
           ++ dq ++ dq ++ u "hello" ++ dq ++ dq) =
    Returned (Action (mkAction (u "search") (u "hello")
      (u "Action: search" ++ nl ++ u "Action Input: "
         ++ dq ++ dq ++ u "hello" ++ dq ++ dq))).
Proof. reflexivity. Qed.

(** ** The prompt formatter *)

Section FormatterFacts.
Context {W : Type}.
Variable str_format : str -> gmap str str -> outcome str.
Implicit Types (self : CustomPromptTemplate W) (kwargs : gmap str str).
Implicit Types (steps : list (AgentAction * str)).


Lemma foldl_step_thoughts steps thoughts latest :
  foldl step_thoughts (thoughts, latest) steps =
  (thoughts ++ concat (render_step <$> steps),
   from_option report_step latest (last steps)).
Proof.
  revert thoughts latest. induction steps as [|[a o] steps IH]; intros th la.
  - simpl. rewrite app_nil_r. reflexivity.
  - cbn [foldl step_thoughts]. rewrite IH. f_equal.
    + cbn [fmap list_fmap concat]. unfold render_step. cbn [fst snd].
      rewrite <- !app_assoc. reflexivity.
    + destruct steps as [|st steps]; [reflexivity|].
      rewrite last_cons_cons.
      destruct (last (st :: steps)) eqn:E; [reflexivity|].
      apply last_None in E. discriminate.
Qed.

Lemma run_steps_spec steps :
  run_steps steps =
  (concat (render_step <$> steps), from_option report_step [] (last steps)).
Proof. unfold run_steps. rewrite foldl_step_thoughts. reflexivity. Qed.

(** [format_messages] is: the callback, if any, then the formatting of
    [prompt_kwargs]. *)
Lemma format_messages_unfold self steps kwargs :
  format_messages str_format self steps kwargs =
  (_ ← match thoughts_cb self with
       | Some cb => cb (strip (run_steps steps).2)
       | None => ret tt
       end;
   formatted ← lift (str_format (template self) (prompt_kwargs self steps kwargs));
   ret [HumanMessage formatted]).
Proof.
  unfold format_messages, prompt_kwargs. destruct (run_steps steps). reflexivity.
Qed.

End FormatterFacts.

(** *** [str.format]: an empty argument adds nothing *)

Lemma prepend_nil (r : option (outcome (list N))) : prepend [] r = r.
Proof. destruct r as [[text|e]|]; reflexivity. Qed.

(** A field whose argument is the empty string can be deleted from the
    template: the outcome, errors included, is the same. *)
Lemma render_without_field (field_name : list N) (ps : list piece)
    (fin : ending) (kwargs : gmap (list N) (list N)) :
  kwargs !! field_name = Some [] ->
  render (without_field field_name ps) fin kwargs = render ps fin kwargs.
Proof.
  intros Hempty. induction ps as [|[c|n] ps IH]; [reflexivity| |].
  - cbn [without_field List.filter is_field negb render].
    fold (without_field field_name ps). rewrite IH. reflexivity.
  - cbn [without_field List.filter is_field]. fold (without_field field_name ps).
    destruct (bool_decide_reflect (n = field_name)) as [->|Hne]; cbn [negb].
    + cbn [render]. rewrite Hempty, prepend_nil. exact IH.
    + cbn [render]. rewrite IH. reflexivity.
Qed.

Lemma python_format_like_python : formats_like_python python_format.
Proof. intros t kw o H. unfold python_format. rewrite H. reflexivity. Qed.

(** [join]: the first part, then every other part after a separator. *)
Lemma join_cons (sep first : list N) (others : list (list N)) :
  join sep (first :: others) =
  first ++ concat ((fun h => sep ++ h) <$> others).
Proof.
  revert first. induction others as [|h others IH]; intros first.
  - cbn. rewrite app_nil_r. reflexivity.
  - change (join sep (first :: h :: others))
      with (first ++ sep ++ join sep (h :: others)).
    rewrite IH. cbn [fmap list_fmap concat]. rewrite <- !app_assoc. reflexivity.
Qed.

Ltac key_ne := let H := fresh in intros H; vm_compute in H; discriminate H.

Section FormatterClaims.
Context {W : Type}.
Variable str_format : str -> gmap str str -> outcome str.
Implicit Types (self : CustomPromptTemplate W) (kwargs : gmap str str).
Implicit Types (steps : list (AgentAction * str)).

Lemma lookup_tools_kwargs_other self kwargs k :
  k <> u "tools" -> k <> u "tool_names" -> k <> u "chat_history" ->
  tools_kwargs self kwargs !! k = kwargs !! k.
Proof.
  intros H1 H2 H3. unfold tools_kwargs.
  destruct (chat_history self); rewrite !lookup_insert_ne by auto; reflexivity.
Qed.

(** C8: the template is filled from [prompt_kwargs], whose
    [agent_scratchpad] entry is the concatenation, in the order of the trace, of each step's action log,
    a line feed and "Observation: ", the observation, a line feed and
    "Thought: "; it is empty for an empty trace and ends with "Thought: "
    for any other. *)
Theorem agent_scratchpad_rendering self steps kwargs :
  format_messages str_format self steps kwargs =
    (_ ← from_option (fun cb => cb (latest_report steps)) (ret tt)
           (thoughts_cb self);
     formatted ← lift (str_format (template self)
                         (prompt_kwargs self steps kwargs));
     ret [HumanMessage formatted]) /\
  prompt_kwargs self steps kwargs !! u "agent_scratchpad"
    = Some (concat (render_step <$> steps)) /\
  (steps = [] -> concat (render_step <$> steps) = []) /\
  (steps <> [] ->
   exists front, concat (render_step <$> steps) = front ++ u "Thought: ").
Proof.
  split; [|split; [|split]].
  - rewrite format_messages_unfold. unfold latest_report.
    rewrite run_steps_spec. destruct (thoughts_cb self); reflexivity.
  - unfold prompt_kwargs. rewrite lookup_tools_kwargs_other by key_ne.
    rewrite lookup_insert_eq, run_steps_spec. reflexivity.
  - intros ->. reflexivity.
  - intros Hne. destruct (last steps) as [st|] eqn:E;
      [|apply last_None in E; contradiction].
    apply last_Some in E as [front ->].
    exists (concat (render_step <$> front) ++ log st.1 ++ nl ++ u "Observation: "
              ++ st.2 ++ nl).
    rewrite fmap_app, concat_app. cbn [fmap list_fmap concat].
    unfold render_step. rewrite app_nil_r, <- !app_assoc. reflexivity.
Qed.

(** C9, as the code has it: the template is filled from [prompt_kwargs],
    whose [chat_history] entry is the label "Previous conversation history:",
    a line feed, the first entry of the history and every further entry
    after a line feed when the history is not empty, and the empty string
    when it is.  With an empty history the formatted prompt is therefore
    the one of the template without its [chat_history] placeholder: the
    history adds no text to it, and no label.  (The label can still be in
    the prompt, when the template or another argument has it.) *)
Theorem chat_history_rendering self steps kwargs :
  format_messages str_format self steps kwargs =
    (_ ← from_option (fun cb => cb (latest_report steps)) (ret tt)
           (thoughts_cb self);
     formatted ← lift (str_format (template self)
                         (prompt_kwargs self steps kwargs));
     ret [HumanMessage formatted]) /\
  prompt_kwargs self steps kwargs !! u "chat_history"
    = Some (match chat_history self with
            | [] => []
            | first :: others =>
                u "Previous conversation history:" ++ nl ++ first
                  ++ concat ((fun entry => nl ++ entry) <$> others)
            end) /\
  (chat_history self = [] ->
   formats_like_python str_format ->
   forall prompt : outcome str,
     render (without_field (u "chat_history") (parse_text (template self)).1)
       (parse_text (template self)).2 (prompt_kwargs self steps kwargs)
       = Some prompt ->
     forall w : W,
       format_messages str_format (without_cb self) steps kwargs w =
       (obind prompt (fun text => Returned [HumanMessage text]), w)).
Proof.
  assert (H : prompt_kwargs self steps kwargs !! u "chat_history"
            = Some (match chat_history self with
                    | [] => []
                    | first :: others =>
                        u "Previous conversation history:" ++ nl ++ first
                          ++ concat ((fun entry => nl ++ entry) <$> others)
                    end)).
  { unfold prompt_kwargs, tools_kwargs.
    destruct (chat_history self) as [|first others]; [apply lookup_insert_eq|].
    rewrite lookup_insert_eq, join_cons. reflexivity. }
  split; [|split; [exact H|]].
  - rewrite format_messages_unfold. unfold latest_report.
    rewrite run_steps_spec. destruct (thoughts_cb self); reflexivity.
  - intros Hnil Hpy prompt Hrender w. rewrite Hnil in H.
    rewrite render_without_field in Hrender by exact H.
    apply Hpy in Hrender.
    rewrite format_messages_unfold.
    assert (Hkw : prompt_kwargs (without_cb self) steps kwargs
                  = prompt_kwargs self steps kwargs) by reflexivity.
    rewrite Hkw. cbn [without_cb thoughts_cb template].
    unfold mbind, M_bind, bind, mret, M_ret, ret, lift.
    rewrite Hrender. destruct prompt; reflexivity.
Qed.


(** C4, as the code has it: a configured callback is invoked exactly once
    per call, before the template is filled, with the last step's action
    log, two line feeds, "Observation: " and the observation, stripped; on an
    empty trace it is invoked as well, with the empty string.  When the
    callback returns, the outcome is the one of formatting without a
    callback, and formatting without a callback leaves the world alone. *)
Theorem format_messages_callback self cb steps kwargs w :
  thoughts_cb self = Some cb ->
  format_messages str_format self steps kwargs w =
    match cb (latest_report steps) w with
    | (Returned _, w') =>
        ((format_messages str_format (without_cb self) steps kwargs w').1, w')
    | (Raised e, w') => (Raised e, w')
    end /\
  (forall w', (format_messages str_format (without_cb self) steps kwargs w').2 = w').
Proof.
  intros Hcb. rewrite !format_messages_unfold. split.
  - rewrite Hcb. unfold latest_report. rewrite run_steps_spec. cbn [snd].
    unfold mbind, M_bind, bind.
    destruct (cb _ w) as [[[]|e] w1]; [|reflexivity].
    unfold without_cb, prompt_kwargs, tools_kwargs, mret, M_ret, ret, lift.
    cbn [thoughts_cb template tools chat_history].
    destruct (str_format _ _); reflexivity.
  - intros w'.
    unfold without_cb, mbind, M_bind, bind, mret, M_ret, ret, lift.
    cbn [thoughts_cb template]. destruct (str_format _ _); reflexivity.
Qed.

End FormatterClaims.

(** *** A concrete formatter run *)


Lemma format_messages_callback_witness :
  format_messages append_scratchpad (demo_template (Some recording_cb))
    one_step ∅ [] =
  (Returned [HumanMessage (u "Question: hi" ++ nl ++ u "Action: search" ++ nl
                             ++ u "Observation:  found " ++ nl ++ u "Thought: ")],
   [u "Action: search" ++ nl ++ nl ++ u "Observation:  found"]).
Proof.
  rewrite (proj1 (format_messages_callback append_scratchpad
                    (demo_template (Some recording_cb)) recording_cb
                    one_step ∅ [] eq_refl)).
  reflexivity.
Defined.

(** C4 as stated fails on an empty trace: the callback is invoked, with the
    empty string. *)
Lemma format_messages_callback_counterexample :
  (format_messages append_scratchpad (demo_template (Some recording_cb))
     [] ∅ []).2 <> [].
Proof. vm_compute. discriminate. Qed.

Example format_messages_empty_trace :
  (format_messages append_scratchpad (demo_template (Some recording_cb))
     [] ∅ []).2 = [[]].
Proof. reflexivity. Qed.

Lemma agent_scratchpad_rendering_witness :
  exists front,
    concat (render_step <$> one_step) = front ++ u "Thought: ".
Proof.
  apply (proj2 (proj2 (proj2 (agent_scratchpad_rendering append_scratchpad
                                (demo_template None) one_step ∅)))).
  discriminate.
Defined.

Lemma chat_history_rendering_witness :
  prompt_kwargs (history_template two_lines) [] {[ u "input" := u "bye" ]}
    !! u "chat_history"
  = Some (u "Previous conversation history:" ++ nl ++ u "Human: hi" ++ nl
            ++ u "AI: hello") /\
  without_field (u "chat_history")
    (parse_text (template (history_template []))).1
  = (parse_text (nl ++ nl ++ u "Question: {input}" ++ nl
                   ++ u "{agent_scratchpad}")).1 /\
  format_messages python_format (history_template []) []
    {[ u "input" := u "bye" ]} tt
  = (Returned [HumanMessage (nl ++ nl ++ u "Question: bye" ++ nl)], tt).
Proof.
  split; [|split; [reflexivity|]].
  - exact (proj1 (proj2 (chat_history_rendering python_format
                           (history_template two_lines) []
                           {[ u "input" := u "bye" ]}))).
  - exact (proj2 (proj2 (chat_history_rendering python_format
                           (history_template []) [] {[ u "input" := u "bye" ]}))
             eq_refl python_format_like_python
             (Returned (nl ++ nl ++ u "Question: bye" ++ nl)) eq_refl tt).
Defined.

Example format_messages_with_history :
  format_messages python_format (history_template two_lines) []
    {[ u "input" := u "bye" ]} tt
  = (Returned [HumanMessage (u "Previous conversation history:" ++ nl
                               ++ u "Human: hi" ++ nl ++ u "AI: hello" ++ nl
                               ++ nl ++ u "Question: bye" ++ nl)], tt).
Proof. vm_compute. reflexivity. Qed.

(** C9 as stated fails for an input that quotes the label: the history is
    empty and the label is in the formatted prompt. *)
Lemma chat_history_rendering_counterexample :
  format_messages python_format (history_template []) []
    {[ u "input" := u "Previous conversation history:" ]} tt
  = (Returned [HumanMessage (nl ++ nl
                 ++ u "Question: Previous conversation history:" ++ nl)], tt) /\
  contains (u "Previous conversation history:")
    (nl ++ nl ++ u "Question: Previous conversation history:" ++ nl) = true.
Proof. split; vm_compute; reflexivity. Qed.

(** ** The run *)

Ltac unfold_monad :=
  unfold mbind, M_bind, bind, mret, M_ret, ret, lift, raise, try_except in *.

Section RunClaims.
Context {W : Type}.
Variable str_format : str -> gmap str str -> outcome str.
Variable format_map_SafeDict : str -> gmap str str -> outcome str.
Variable LLM : Type.
Variable ChatOpenAI : Z -> M W LLM.
Variable complete : LLM -> list Message -> list str -> M W str.
Variable get_tools : list str -> LLM -> M W (list (Tool W)).
Variable get_tools_by_query : str -> LLM -> M W (list (Tool W)).
Variable encode_protected_output : str -> outcome str.
Variable is_dev_mode : M W bool.
Variable py_str : pyval -> str.
Variable print_exc : PyException -> W -> W.

Let the_loop := agent_loop str_format LLM complete py_str.
Let the_call := agent_executor_call str_format LLM complete py_str.
Let the_rounds := rounds str_format LLM complete py_str.
Let the_setup :=
  setup format_map_SafeDict LLM ChatOpenAI get_tools get_tools_by_query
    encode_protected_output is_dev_mode.
Let the_body :=
  run_body str_format format_map_SafeDict LLM ChatOpenAI complete get_tools
    get_tools_by_query encode_protected_output is_dev_mode py_str.
Let handle :=
  handle_chat_with_agents str_format format_map_SafeDict LLM ChatOpenAI
    complete get_tools get_tools_by_query encode_protected_output is_dev_mode
    py_str print_exc.

(** The body is the setup, the executor's call, and the [success] entry. *)
Lemma run_body_setup prompt chat_history tool_names actor max_iterations cb w :
  the_body prompt chat_history tool_names actor max_iterations cb w =
  match the_setup prompt chat_history tool_names actor max_iterations cb w with
  | (Returned (ex, inputs), w0) =>
      match the_call ex inputs w0 with
      | (Returned result, w1) =>
          (setitem result (u "success") (VBool true), w1)
      | (Raised e, w1) => (Raised e, w1)
      end
  | (Raised e, w0) => (Raised e, w0)
  end.
Proof.
  unfold the_body, the_setup, the_call, run_body, setup. unfold_monad.
  destruct (format_map_SafeDict _ _) as [template|e]; [|reflexivity].
  destruct (ChatOpenAI 0 w) as [[llm|e] wa]; [|reflexivity].
  assert (Hsel : exists sel : M W (list (Tool W)),
             match tool_names with
             | [] => get_tools_by_query prompt llm
             | _ :: _ => get_tools tool_names llm
             end = sel) by eauto.
  destruct Hsel as [sel ->].
  destruct (sel wa) as [[tools|e] wb]; [|reflexivity].
  destruct (is_dev_mode wb) as [[verbose|e] wc]; [|reflexivity].
  destruct (encode_protected_output prompt) as [input|e]; [|reflexivity].
  destruct (agent_executor_call _ _ _ _ _ _ wc) as [[result|e] wd];
    [|reflexivity].
  destruct (setitem result _ _); reflexivity.
Qed.

(** Rounds that run a tool leave the outcome of the loop to the rounds
    after them. *)
Lemma rounds_loop ex inputs n trace w n' trace' w' :
  the_rounds ex inputs n trace w n' trace' w' ->
  the_loop ex inputs n trace w = the_loop ex inputs n' trace' w'.
Proof.
  induction 1 as [|n trace w messages w1 text w2 act t observation w3 n' trace'
                   w' Hf Hc Hp Hal Hft Hrun _ IH]; [reflexivity|].
  rewrite <- IH. unfold the_loop. cbn [agent_loop]. unfold_monad.
  rewrite Hf, Hc, Hp, bool_decide_true, Hft, Hrun by exact Hal. reflexivity.
Qed.

(** A round whose model output does not parse raises the parser's error. *)
Lemma round_parse_error ex inputs n trace w messages w1 text w2 e :
  format_messages str_format (prompt (llm_chain (agent ex))) trace inputs w
    = (Returned messages, w1) ->
  complete (llm (llm_chain (agent ex))) messages (stop (agent ex)) w1
    = (Returned text, w2) ->
  output_parser (agent ex) text = Raised e ->
  the_loop ex inputs (S n) trace w = (Raised e, w2).
Proof.
  intros Hf Hc Hp. unfold the_loop. cbn [agent_loop]. unfold_monad.
  rewrite Hf, Hc, Hp. reflexivity.
Qed.

(** The other failures of a round raise as well: formatting, the model
    service, a tool outside the allowed set, the tool itself. *)
Lemma round_format_error ex inputs n trace w w1 e :
  format_messages str_format (prompt (llm_chain (agent ex))) trace inputs w
    = (Raised e, w1) ->
  the_loop ex inputs (S n) trace w = (Raised e, w1).
Proof.
  intros Hf. unfold the_loop. cbn [agent_loop]. unfold_monad.
  rewrite Hf. reflexivity.
Qed.

Lemma round_model_error ex inputs n trace w messages w1 w2 e :
  format_messages str_format (prompt (llm_chain (agent ex))) trace inputs w
    = (Returned messages, w1) ->
  complete (llm (llm_chain (agent ex))) messages (stop (agent ex)) w1
    = (Raised e, w2) ->
  the_loop ex inputs (S n) trace w = (Raised e, w2).
Proof.
  intros Hf Hc. unfold the_loop. cbn [agent_loop]. unfold_monad.
  rewrite Hf, Hc. reflexivity.
Qed.

Lemma round_tool_error ex inputs n trace w messages w1 text w2 act t w3 e :
  format_messages str_format (prompt (llm_chain (agent ex))) trace inputs w
    = (Returned messages, w1) ->
  complete (llm (llm_chain (agent ex))) messages (stop (agent ex)) w1
    = (Returned text, w2) ->
  output_parser (agent ex) text = Returned (Action act) ->
  tool act ∈ allowed_tools (agent ex) ->
  find_tool (tool act) (executor_tools ex) = Some t ->
  func t (tool_input act) w2 = (Raised e, w3) ->
  the_loop ex inputs (S n) trace w = (Raised e, w3).
Proof.
  intros Hf Hc Hp Hal Hft Hrun. unfold the_loop. cbn [agent_loop]. unfold_monad.
  rewrite Hf, Hc, Hp, bool_decide_true, Hft, Hrun by exact Hal. reflexivity.
Qed.

(** A failure of the executor's call is the failure of the body. *)
Lemma run_body_call_error prompt chat_history tool_names actor max_iterations
    cb w ex inputs w0 e w1 :
  the_setup prompt chat_history tool_names actor max_iterations cb w
    = (Returned (ex, inputs), w0) ->
  the_call ex inputs w0 = (Raised e, w1) ->
  the_body prompt chat_history tool_names actor max_iterations cb w
    = (Raised e, w1).
Proof. intros Hs Hc. rewrite run_body_setup, Hs, Hc. reflexivity. Qed.

Lemma getitem_failure e :
  getitem (failure e) (u "success") = Some (VBool false) /\
  getitem (failure e) (u "error") = Some (VTuple (exc_args e)).
Proof.
  unfold failure. cbn [getitem]. split.
  - rewrite lookup_insert_eq. reflexivity.
  - rewrite lookup_insert_ne by key_ne. apply lookup_singleton_eq.
Qed.

(** C6: every call of the entry point returns a value, never raises: when
    the guarded body returns, its result with [success] bound to [True];
    when the body raises, at whatever stage, the dictionary made of
    [success] bound to [False] and [error] bound to the exception's
    arguments. *)
Theorem handle_chat_with_agents_structured
    prompt chat_history tool_names actor max_iterations cb w :
  exists result w',
    handle prompt chat_history tool_names actor max_iterations cb w
      = (Returned result, w') /\
    ((the_body prompt chat_history tool_names actor max_iterations cb w
        = (Returned result, w') /\
      getitem result (u "success") = Some (VBool true))
     \/
     (exists e w0,
        the_body prompt chat_history tool_names actor max_iterations cb w
          = (Raised e, w0) /\
        w' = print_exc e w0 /\ result = failure e /\
        getitem result (u "success") = Some (VBool false) /\
        getitem result (u "error") = Some (VTuple (exc_args e)))).
Proof.
  unfold handle, handle_chat_with_agents, try_except. fold the_body.
  destruct (the_body prompt chat_history tool_names actor max_iterations cb w)
    as [[result|e] w1] eqn:E.
  - exists result, w1. split; [reflexivity|]. left. split; [reflexivity|].
    rewrite run_body_setup in E.
    destruct (the_setup _ _ _ _ _ _ _) as [[[ex inputs]|e] w0]; [|discriminate].
    destruct (the_call _ _ _) as [[r|e] w2]; [|discriminate].
    destruct r; try discriminate. cbn [setitem] in E. injection E as <- <-.
    cbn [getitem]. apply lookup_insert_eq.
  - exists (failure e), (print_exc e w1). split; [reflexivity|]. right.
    exists e, w1. destruct (getitem_failure e). auto.
Qed.

(** The executor that the setup builds parses with [parse] and has the
    caller's iteration cap. *)
Lemma setup_executor prompt chat_history tool_names actor max_iters cb w
    ex inputs w0 :
  the_setup prompt chat_history tool_names actor max_iters cb w
    = (Returned (ex, inputs), w0) ->
  output_parser (agent ex) = parse /\ max_iterations ex = max_iters.
Proof.
  unfold the_setup, setup. unfold_monad.
  destruct (format_map_SafeDict _ _) as [template|e]; [|discriminate].
  destruct (ChatOpenAI 0 w) as [[llm|e] wa]; [|discriminate].
  assert (Hsel : exists sel : M W (list (Tool W)),
             match tool_names with
             | [] => get_tools_by_query prompt llm
             | _ :: _ => get_tools tool_names llm
             end = sel) by eauto.
  destruct Hsel as [sel ->].
  destruct (sel wa) as [[tools|e] wb]; [|discriminate].
  destruct (is_dev_mode wb) as [[verbose|e] wc]; [|discriminate].
  destruct (encode_protected_output prompt) as [input|e]; [|discriminate].
  intros [= <- _ _]. split; reflexivity.
Qed.

(** C3: a model output with neither the marker "Final Answer:" nor a match
    of the action pattern makes [parse] raise an error whose message holds
    the text as it came; raised in any round of a run, the error ends the
    run, and the caller gets the result with [success] bound to [False] and
    the message under [error]. *)
Theorem parse_failure_fails_the_run (llm_output : str) :
  contains FINAL_ANSWER llm_output = false ->
  re_search llm_output = None ->
  parse llm_output = Raised (could_not_parse llm_output) /\
  exc_args (could_not_parse llm_output)
    = [VStr (u "Could not parse LLM output: `" ++ llm_output ++ u "`")] /\
  forall question chat_history tool_names actor max_iters cb w
         ex inputs w0 n trace w1 messages w2 w3,
    the_setup question chat_history tool_names actor max_iters cb w
      = (Returned (ex, inputs), w0) ->
    the_rounds ex inputs (Z.to_nat max_iters) [] w0 (S n) trace w1 ->
    format_messages str_format (prompt (llm_chain (agent ex))) trace inputs w1
      = (Returned messages, w2) ->
    complete (llm (llm_chain (agent ex))) messages (stop (agent ex)) w2
      = (Returned llm_output, w3) ->
    handle question chat_history tool_names actor max_iters cb w
      = (Returned (failure (could_not_parse llm_output)),
         print_exc (could_not_parse llm_output) w3) /\
    getitem (failure (could_not_parse llm_output)) (u "success")
      = Some (VBool false).
Proof.
  intros Hfa Hre.
  assert (Hp : parse llm_output = Raised (could_not_parse llm_output))
    by (unfold parse; rewrite Hfa, Hre; reflexivity).
  split; [exact Hp|]. split; [reflexivity|].
  intros question chat_history tool_names actor max_iters cb w ex inputs w0 n
    trace w1 messages w2 w3 Hs Hr Hf Hc.
  split; [|apply getitem_failure].
  destruct (setup_executor _ _ _ _ _ _ _ _ _ _ Hs) as [Hparser Hcap].
  unfold handle, handle_chat_with_agents, try_except. fold the_body.
  rewrite (run_body_call_error _ _ _ _ _ _ _ _ _ _
             (could_not_parse llm_output) w3 Hs); [reflexivity|].
  unfold the_call, agent_executor_call. rewrite Hcap. fold the_loop.
  rewrite (rounds_loop _ _ _ _ _ _ _ _ Hr).
  apply (round_parse_error _ _ _ _ _ _ _ _ _ _ Hf Hc).
  rewrite Hparser. exact Hp.
Qed.

End RunClaims.

(** *** A concrete run: a model that only thinks aloud *)


Lemma parse_failure_fails_the_run_witness :
  demo_handle (fun _ _ _ => ret thinking)
    (u "hello") [] [] (u "assistant") 15 None tt =
  (Returned (VDict {[ u "success" := VBool false;
                      u "error" := VTuple [VStr (u "Could not parse LLM output: `I am thinking...`")] ]}),
   tt).
Proof.
  pose proof (parse_failure_fails_the_run (W:=unit) append_scratchpad
                keep_template unit
                (fun _ => ret tt) (fun _ _ _ => ret thinking)
                (fun _ _ => ret []) (fun _ _ => ret [])
                Returned (ret false) (fun _ => []) (fun _ w => w)
                thinking eq_refl eq_refl) as (_ & _ & H).
  refine (proj1 (H (u "hello") [] [] (u "assistant") 15%Z None tt _ _ tt 14 [] tt
                   _ tt tt eq_refl _ eq_refl eq_refl)).
  apply rounds_here.
Defined.

(** ** The tool adapters *)

Section AdapterClaims.
Context {W : Type}.
Variable decode_protected_output : str -> outcome str.
Variable parse_json_string : str -> outcome pyval.
Variable json_loads : str -> outcome pyval.
Variables Model Version Prediction : Type.
Variable models_get : str -> M W Model.
Variable versions_get : Model -> str -> M W Version.
Variable predictions_create : Version -> pyval -> M W Prediction.
Variable prediction_json : Prediction -> outcome str.
Variable print_exc : PyException -> W -> W.

Let body :=
  Replicate.prediction_body decode_protected_output parse_json_string
    json_loads Model Version Prediction models_get versions_get
    predictions_create prediction_json.
Let create :=
  Replicate.create_prediction decode_protected_output parse_json_string
    json_loads Model Version Prediction models_get versions_get
    predictions_create prediction_json print_exc.
Let backend_response :=
  Replicate.backend_response decode_protected_output parse_json_string
    json_loads Model Version Prediction models_get versions_get
    predictions_create prediction_json.
Let tagged := Replicate.tagged.
Let adapters : list (Tool W) :=
  Replicate.tools decode_protected_output parse_json_string
    json_loads Model Version Prediction models_get versions_get
    predictions_create prediction_json print_exc.



(** Every adapter of the catalogue is [create_prediction] at a fixed model,
    version and output type. *)
Lemma adapter_is_create_prediction t :
  t ∈ adapters ->
  exists model_name model_version tag,
    forall query, func t query = create model_name model_version query tag.
Proof.
  unfold adapters, Replicate.tools. intros H.
  repeat (apply elem_of_cons in H as [->|H];
          [eexists _, _, _; intros query; reflexivity|]).
  apply elem_of_nil in H. contradiction.
Qed.

(** When the body returns, it returns the success dictionary built from the
    backend's response. *)
Lemma prediction_body_returns model_name model_version query tag w result w' :
  body model_name model_version query tag w = (Returned result, w') ->
  exists input response,
    backend_response model_name model_version query w input response w' /\
    is_Some (response !! u "version") /\
    result = Replicate.success_result (tagged tag response) input
               model_name model_version.
Proof.
  unfold body, Replicate.prediction_body. unfold_monad.
  destruct (decode_protected_output query) as [q|e] eqn:Hq; [|discriminate].
  destruct (parse_json_string q) as [input|e] eqn:Hi; [|discriminate].
  destruct (models_get model_name w) as [[model|e] w1] eqn:Hm; [|discriminate].
  destruct (versions_get model model_version w1) as [[version|e] w2] eqn:Hv;
    [|discriminate].
  destruct (predictions_create version input w2) as [[prediction|e] w3] eqn:Hp;
    [|discriminate].
  destruct (prediction_json prediction) as [serialised|e] eqn:Hs;
    [|discriminate].
  cbn [obind].
  destruct (json_loads serialised) as [r|e] eqn:Hj; [|discriminate].
  destruct r as [| | | | | |response]; try discriminate.
  cbn [setitem delitem].
  destruct (<[u "output_type" := _]> response !! u "version") as [v|] eqn:Hver;
    [|discriminate].
  intros [= <- <-]. exists input, response. split; [|split].
  - exists q, model, version, prediction, serialised, w1, w2. auto 10.
  - rewrite lookup_insert_ne in Hver by key_ne. eauto.
  - reflexivity.
Qed.

Lemma create_prediction_outcome model_name model_version query tag w :
  create model_name model_version query tag w =
  match body model_name model_version query tag w with
  | (Returned result, w') => (Returned result, w')
  | (Raised e, w') => (Returned (failure e), print_exc e w')
  end.
Proof. reflexivity. Qed.

Lemma getitem_success_result prediction input model_name model_version :
  let r := Replicate.success_result prediction input model_name model_version in
  getitem r (u "success") = Some (VBool true) /\
  getitem r (u "replicate") = Some prediction /\
  getitem r (u "input") = Some input /\
  getpath r [u "model"; u "version"] = Some (VStr model_version).
Proof.
  cbn zeta. unfold Replicate.success_result. cbn [getpath getitem].
  split; [|split; [|split]].
  - apply lookup_insert_eq.
  - rewrite lookup_insert_ne by key_ne. apply lookup_insert_eq.
  - rewrite !lookup_insert_ne by key_ne. apply lookup_insert_eq.
  - rewrite !lookup_insert_ne by key_ne. rewrite lookup_singleton_eq.
    cbn [mbind option_bind getitem]. rewrite lookup_insert_ne by key_ne.
    rewrite lookup_singleton_eq. reflexivity.
Qed.


(** C5, as the code has it: a successful call returns, under [replicate],
    the backend's job-creation response with its [version] entry deleted
    (the response had one) and the adapter's [output_type] tag set, every
    other entry being the response's; the result itself still shows the
    adapter's fixed version, under [model]. *)
Theorem adapters_drop_response_version (t : Tool W) (query : str) (w : W)
    (result : pyval) (w' : W) :
  t ∈ adapters ->
  func t query w = (Returned result, w') ->
  getitem result (u "success") = Some (VBool true) ->
  exists model_name model_version tag input response,
    (forall q, func t q = create model_name model_version q tag) /\
    backend_response model_name model_version query w input response w' /\
    is_Some (response !! u "version") /\
    getitem result (u "replicate") = Some (tagged tag response) /\
    getpath result [u "replicate"; u "version"] = None /\
    (forall k : str,
        k <> u "version" -> k <> u "output_type" ->
        getpath result [u "replicate"; k] = response !! k) /\
    getpath result [u "model"; u "version"] = Some (VStr model_version).
Proof.
  intros Ht Hrun Hok.
  destruct (adapter_is_create_prediction t Ht) as (mn & mv & tag & Hfun).
  rewrite Hfun, create_prediction_outcome in Hrun.
  destruct (body mn mv query tag w) as [[r|e] w0] eqn:Hb.
  - injection Hrun as -> ->.
    apply prediction_body_returns in Hb as (input & response & Hr & Hv & ->).
    exists mn, mv, tag, input, response.
    destruct (getitem_success_result (tagged tag response) input mn mv)
      as (_ & Hrep & _ & Hver).
    split; [exact Hfun|]. split; [exact Hr|]. split; [exact Hv|].
    split; [exact Hrep|]. split; [|split; [|exact Hver]].
    + cbn [getpath]. rewrite Hrep. unfold tagged, Replicate.tagged.
      cbn [mbind option_bind getpath getitem].
      rewrite lookup_delete_eq. reflexivity.
    + intros k Hk1 Hk2. cbn [getpath]. rewrite Hrep.
      unfold tagged, Replicate.tagged.
      cbn [mbind option_bind getpath getitem].
      rewrite lookup_delete_ne by congruence.
      rewrite lookup_insert_ne by congruence.
      destruct (response !! k); reflexivity.
  - injection Hrun as <- _. destruct (getitem_failure e) as [Hs _].
    rewrite Hs in Hok. discriminate.
Qed.

End AdapterClaims.

(** *** A concrete backend *)


Example demo_stable_diffusion_run :
  func demo_stable_diffusion (u "{}") tt = (Returned demo_result, tt).
Proof. vm_compute. reflexivity. Qed.

Lemma demo_stable_diffusion_listed : demo_stable_diffusion ∈ demo_adapters.
Proof. left. Qed.


Lemma adapters_drop_response_version_witness :
  exists response : gmap (list N) pyval,
    is_Some (response !! u "version") /\
    getitem demo_result (u "replicate")
      = Some (VDict (delete (u "version")
                       (<[u "output_type" := VStr (u "image")]> response))) /\
    getpath demo_result [u "replicate"; u "version"] = None /\
    getpath demo_result [u "replicate"; u "id"] = response !! u "id" /\
    exists model_version,
      getpath demo_result [u "model"; u "version"] = Some (VStr model_version).
Proof.
  destruct (adapters_drop_response_version Returned demo_parse_json
              (fun _ => Returned (VDict demo_response)) unit unit unit
              (fun _ => ret tt) (fun _ _ => ret tt) (fun _ _ => ret tt)
              (fun _ => Returned (u "{...}")) (fun _ w => w)
              demo_stable_diffusion (u "{}") tt demo_result tt
              demo_stable_diffusion_listed demo_stable_diffusion_run eq_refl)
    as (mn & mv & tag & input & response & Hfun & _ & Hv & Hrep & Hno & Hkeep
        & Hver).
  exists response. split; [exact Hv|].
  assert (Htag : tag = Replicate.image).
  { specialize (Hfun (u "{}")). apply (f_equal (fun f => f tt)) in Hfun.
    rewrite demo_stable_diffusion_run in Hfun.
    destruct tag; [reflexivity|vm_compute in Hfun; discriminate Hfun..]. }
  split; [rewrite Hrep, Htag; reflexivity|].
  split; [exact Hno|]. split; [apply Hkeep; key_ne|].
  exists mv. exact Hver.
Defined.

(** C5 as stated fails: the result that the adapter returns shows the
    version, under [model]. *)
Lemma adapters_drop_response_version_counterexample :
  func demo_stable_diffusion (u "{}") tt = (Returned demo_result, tt) /\
  ~ (forall path, getpath demo_result (path ++ [u "version"]) = None).
Proof.
  split; [exact demo_stable_diffusion_run|].
  intros H. specialize (H [u "model"]). vm_compute in H. discriminate H.
Qed.

(** * Further properties of the code *)

(** ** The output parser, read backwards *)

Section ParserInversion.
Implicit Types (s t name nls ws rest seen : list N) (p : N -> bool).

Lemma drop_while_split p s :
  exists a, s = a ++ drop_while p s /\ forallb p a = true.
Proof.
  induction s as [|c s (a & Ha & Hp)]; [exists []; auto|].
  cbn [drop_while]. destruct (p c) eqn:Hc.
  - exists (c :: a). split; [simpl; congruence|]. simpl. rewrite Hc. exact Hp.
  - exists []. auto.
Qed.

Lemma drop_while_head p s c : head (drop_while p s) = Some c -> p c = false.
Proof.
  induction s as [|x s IH]; cbn [drop_while]; [discriminate|].
  destruct (p x) eqn:Hx; [exact IH|]. intros [= <-]. exact Hx.
Qed.

(** What [strip_by p] leaves neither starts nor ends with a character
    that satisfies [p]. *)
Lemma strip_by_last p s c : last (strip_by p s) = Some c -> p c = false.
Proof.
  unfold strip_by, rstrip_by, lstrip_by. rewrite last_reverse.
  apply drop_while_head.
Qed.

Lemma strip_by_head p s c : head (strip_by p s) = Some c -> p c = false.
Proof.
  unfold strip_by, rstrip_by, lstrip_by.
  destruct (drop_while_split p (reverse (drop_while p s))) as (a & Ha & _).
  apply (f_equal reverse) in Ha.
  rewrite reverse_involutive, reverse_app in Ha.
  destruct (reverse (drop_while p (reverse (drop_while p s)))) as [|x r] eqn:E;
    [discriminate|].
  intros [= <-]. apply (drop_while_head p s). rewrite Ha. reflexivity.
Qed.

Lemma strip_chars_single x s : strip_chars [x] s = strip_by (N.eqb x) s.
Proof.
  unfold strip_chars, strip_by, lstrip_by, rstrip_by.
  assert (Hd : forall l, drop_while (mem [x]) l = drop_while (N.eqb x) l).
  { induction l as [|c l IH]; simpl; [reflexivity|].
    rewrite orb_false_r, N.eqb_sym, IH. reflexivity. }
  rewrite !Hd. reflexivity.
Qed.

(** The lazy group, read backwards: the capture is the shortest one after
    which the rest of the pattern matches. *)
Lemma match_name_inv seen s g1 g2 :
  match_name seen s = Some (g1, g2) ->
  exists name tail,
    s = name ++ tail /\ g1 = reverse seen ++ name /\
    match_newlines tail = Some g2 /\
    forall k, k < length name -> match_newlines (drop k s) = None.
Proof.
  revert seen. induction s as [|c s IH]; intros seen; cbn [match_name].
  - destruct (match_newlines []) as [g|] eqn:E; [|discriminate].
    intros [= <- <-]. exists [], [].
    split; [reflexivity|]. split; [symmetry; apply app_nil_r|]. split; [exact E|].
    intros k Hk. simpl in Hk. lia.
  - destruct (match_newlines (c :: s)) as [g|] eqn:E.
    + intros [= <- <-]. exists [], (c :: s).
      split; [reflexivity|]. split; [symmetry; apply app_nil_r|].
      split; [exact E|].
      intros k Hk. simpl in Hk. lia.
    + intros (name & tail & -> & -> & Ht & Hmin)%IH.
      exists (c :: name), tail. rewrite reverse_cons, <- app_assoc.
      split; [reflexivity|]. split; [reflexivity|]. split; [exact Ht|].
      intros [|k] Hk; [exact E|]. apply Hmin. simpl in Hk. lia.
Qed.

(** [re_search], read backwards: the match starts at the leftmost position
    that has one. *)
Lemma re_search_inv s m :
  re_search s = Some m ->
  exists k, k <= length s /\ match_here (drop k s) = Some m /\
            forall j, j < k -> match_here (drop j s) = None.
Proof.
  induction s as [|c s IH]; cbn [re_search].
  - destruct (match_here []) eqn:E; [|discriminate].
    intros [= <-]. exists 0. split; [simpl; lia|]. split; [exact E|].
    intros j Hj. lia.
  - destruct (match_here (c :: s)) eqn:E.
    + intros [= <-]. exists 0. split; [simpl; lia|]. split; [exact E|].
      intros j Hj. lia.
    + intros (k & Hk & Hm & Hmin)%IH. exists (S k).
      split; [simpl; lia|]. split; [exact Hm|].
      intros [|j] Hj; [exact E|]. apply Hmin. lia.
Qed.

(** The pattern matches at a position that holds [ACTION] with
    [ACTION_INPUT] somewhere after it. *)
Lemma match_here_exists b c :
  match_here (ACTION ++ b ++ ACTION_INPUT ++ c) <> None.
Proof.
  unfold match_here. rewrite strip_prefix_app.
  change (match_name [] (b ++ ACTION_INPUT ++ c) <> None).
  intros H.
  pose proof (match_name_None _ _ H (length b)
                ltac:(rewrite length_app; lia)) as H'.
  rewrite drop_app_length in H'.
  pose proof (match_newlines_app [] c eq_refl) as Hm. cbn [app] in Hm.
  congruence.
Qed.

End ParserInversion.

(** X1: whenever [parse] returns an action, the text has no marker
    "Final Answer:" and reads: anything, the first "Action: ", a name that
    does not end with a line feed, line feeds, the first "Action Input:"
    after the name's start, whitespace, and a rest that does not start with
    whitespace; the tool is the name stripped, the tool input is the rest
    without its surrounding spaces and then without its surrounding double
    quotes, and the log is the text itself. *)
Theorem parse_action_inversion (llm_output : list N) (a : AgentAction) :
  parse llm_output = Returned (Action a) ->
  contains FINAL_ANSWER llm_output = false /\
  log a = llm_output /\
  exists pre name nls ws rest,
    llm_output = pre ++ ACTION ++ name ++ nls ++ ACTION_INPUT ++ ws ++ rest /\
    find llm_output ACTION = Some (length pre) /\
    find (name ++ nls ++ ACTION_INPUT ++ ws ++ rest) ACTION_INPUT
      = Some (length name + length nls) /\
    forallb (N.eqb LF) nls = true /\
    last name <> Some LF /\
    forallb is_space ws = true /\
    (forall c, head rest = Some c -> is_space c = false) /\
    tool a = strip name /\
    tool_input a = strip_by (N.eqb DQUOTE) (strip_by (N.eqb SPACE) rest).
Proof.
  intros Hp.
  destruct (contains FINAL_ANSWER llm_output) eqn:Hfa.
  { apply contains_rfind in Hfa as [i Hi].
    rewrite (parse_at_last_marker _ _ Hi) in Hp. discriminate. }
  unfold parse in Hp. rewrite Hfa in Hp.
  destruct (re_search llm_output) as [[g1 g2]|] eqn:Hre; [|discriminate].
  injection Hp as <-. cbn [tool tool_input log].
  split; [reflexivity|]. split; [reflexivity|].
  apply re_search_inv in Hre as (k & Hk & Hm & Hmin).
  unfold match_here in Hm.
  destruct (strip_prefix ACTION (drop k llm_output)) as [t|] eqn:Et;
    [|discriminate].
  apply strip_prefix_Some in Et.
  change (match_name [] t = Some (g1, g2)) in Hm.
  apply match_name_inv in Hm as (name & tail & -> & -> & Htail & Hshort).
  rewrite reverse_nil. cbn [app].
  apply match_newlines_Some in Htail as (nls & x & -> & Hnls & ->).
  destruct (drop_while_split is_space x) as (ws & Hx & Hws).
  exists (take k llm_output), name, nls, ws, (drop_while is_space x).
  rewrite <- Hx, length_take_le by exact Hk.
  assert (Hat : drop (k + length ACTION + length name + length nls) llm_output
                = ACTION_INPUT ++ x).
  { replace (k + length ACTION + length name + length nls)
      with (k + length (ACTION ++ name ++ nls)) by (rewrite !length_app; lia).
    rewrite <- drop_drop, Et.
    replace (ACTION ++ name ++ nls ++ ACTION_INPUT ++ x)
      with ((ACTION ++ name ++ nls) ++ ACTION_INPUT ++ x)
      by (rewrite <- !app_assoc; reflexivity).
    exact (drop_app_length (ACTION ++ name ++ nls) (ACTION_INPUT ++ x)). }
  split; [rewrite <- Et; symmetry; apply take_drop|].
  split; [|split; [|split; [exact Hnls|split; [|split; [exact Hws|split]]]]].
  - apply find_Some. split.
    + apply occurs_drop. split; [exact Hk | eauto].
    + intros j Hj. destruct (decide (k <= j)) as [|Hlt]; [assumption|exfalso].
      apply occurs_drop in Hj as [_ [b Hb]].
      specialize (Hmin j ltac:(lia)). rewrite Hb in Hmin.
      set (d := k + length ACTION + length name + length nls
                - (j + length ACTION)).
      assert (Hbd : drop d b = ACTION_INPUT ++ x).
      { rewrite <- Hat.
        replace b with (drop (j + length ACTION) llm_output)
          by (rewrite <- drop_drop, Hb; apply drop_app_length).
        rewrite drop_drop. f_equal. unfold d. lia. }
      rewrite <- (take_drop d b), Hbd in Hmin.
      exact (match_here_exists _ _ Hmin).
  - apply find_Some. split.
    + exists (name ++ nls), x. split; [apply app_assoc | apply length_app].
    + intros j Hj.
      destruct (decide (length name + length nls <= j)) as [|Hlt];
        [assumption|exfalso].
      apply occurs_drop in Hj as [_ [b Hb]].
      destruct (decide (j < length name)) as [Hj|Hj].
      * specialize (Hshort j Hj). rewrite Hb in Hshort.
        pose proof (match_newlines_app [] b eq_refl) as Hs. cbn [app] in Hs.
        congruence.
      * assert (Hc : (name ++ nls ++ ACTION_INPUT ++ x) !! j = Some 65%N).
        { rewrite <- (Nat.add_0_r j), <- lookup_drop, Hb. reflexivity. }
        rewrite lookup_app_r, lookup_app_l in Hc by lia.
        apply (all_LF_lookup _ _ _ Hnls) in Hc. discriminate.
  - intros Hl. apply last_Some in Hl as [name' ->].
    specialize (Hshort (length name') ltac:(rewrite length_app; simpl; lia)).
    rewrite <- (app_assoc name'), drop_app_length in Hshort.
    pose proof (match_newlines_app (LF :: nls) x) as Hs.
    cbn [forallb] in Hs. rewrite N.eqb_refl in Hs.
    specialize (Hs Hnls). cbn [app] in *. congruence.
  - apply drop_while_head.
  - split; [reflexivity|]. unfold dq. rewrite !strip_chars_single. reflexivity.
Qed.

Lemma parse_action_inversion_witness :
  contains FINAL_ANSWER quoted_action = false /\
  log (mkAction (u "search") (u "hello world" ++ dq ++ nl) quoted_action)
    = quoted_action.
Proof.
  pose proof (parse_action_inversion quoted_action
                (mkAction (u "search") (u "hello world" ++ dq ++ nl)
                   quoted_action) eq_refl) as (H1 & H2 & _).
  split; [exact H1 | exact H2].
Defined.

Lemma re_search_Some_shape (s : list N) (m : list N * list N) :
  re_search s = Some m ->
  exists a b c, s = a ++ ACTION ++ b ++ ACTION_INPUT ++ c.
Proof.
  destruct m as [g1 g2].
  intros (k & Hk & E)%re_search_Some. unfold match_here in E.
  destruct (strip_prefix ACTION (drop k s)) as [t|] eqn:Et; [|discriminate].
  apply strip_prefix_Some in Et.
  change (match_name [] t = Some (g1, g2)) in E.
  apply match_name_Some in E as (j & Hj & E).
  apply match_newlines_Some in E as (nls & x & E & _ & _).
  exists (take k s), (take j t ++ nls), x.
  replace ((take j t ++ nls) ++ ACTION_INPUT ++ x) with t
    by (rewrite <- app_assoc, <- E; symmetry; apply take_drop).
  rewrite <- Et. symmetry. apply take_drop.
Qed.

(** X2: [parse] raises exactly when the text has no marker
    "Final Answer:" and no "Action Input:" after its first "Action: " (or no
    "Action: " at all), and what it raises is always the error that quotes
    the text. *)
Theorem parse_raises_iff (llm_output : list N) (e : PyException) :
  parse llm_output = Raised e <->
  e = could_not_parse llm_output /\
  contains FINAL_ANSWER llm_output = false /\
  (forall i, find llm_output ACTION = Some i ->
             contains ACTION_INPUT (drop (i + length ACTION) llm_output) = false).
Proof.
  split.
  - intros Hp.
    destruct (contains FINAL_ANSWER llm_output) eqn:Hfa.
    { apply contains_rfind in Hfa as [i Hi].
      rewrite (parse_at_last_marker _ _ Hi) in Hp. discriminate. }
    unfold parse in Hp. rewrite Hfa in Hp.
    destruct (re_search llm_output) as [[g1 g2]|] eqn:Hre; [discriminate|].
    injection Hp as <-. split; [reflexivity|]. split; [reflexivity|].
    intros i Hi.
    destruct (contains ACTION_INPUT (drop (i + length ACTION) llm_output))
      eqn:Hc; [exfalso|reflexivity].
    apply contains_true in Hc as (b & c & Hc).
    apply find_Some in Hi as [Hi _].
    apply occurs_drop in Hi as [_ [t Ht]].
    rewrite <- drop_drop, Ht, drop_app_length in Hc. subst t.
    apply (proj1 (re_search_None_iff llm_output) Hre).
    exists (take i llm_output), b, c. rewrite <- Ht. symmetry. apply take_drop.
  - intros (-> & Hfa & Hno). unfold parse. rewrite Hfa.
    destruct (re_search llm_output) as [[g1 g2]|] eqn:Hre; [exfalso|reflexivity].
    destruct (re_search_Some_shape _ _ Hre) as (a & b & c & Hs).
    pose proof (find_spec llm_output ACTION) as Hf.
    destruct (find llm_output ACTION) as [i|];
      [|apply (Hf (length a)); exists a, (b ++ ACTION_INPUT ++ c); auto].
    destruct Hf as [_ Hmin].
    assert (Hi : i <= length a)
      by (apply Hmin; exists a, (b ++ ACTION_INPUT ++ c); auto).
    specialize (Hno i eq_refl).
    assert (Hyes : contains ACTION_INPUT
                     (drop (i + length ACTION) llm_output) = true).
    { apply contains_true.
      exists (drop (i + length ACTION) (a ++ ACTION ++ b)), c.
      rewrite Hs.
      replace (a ++ ACTION ++ b ++ ACTION_INPUT ++ c)
        with ((a ++ ACTION ++ b) ++ ACTION_INPUT ++ c)
        by (rewrite <- !app_assoc; reflexivity).
      apply drop_app_le. rewrite !length_app. lia. }
    congruence.
Qed.

Lemma parse_raises_iff_witness :
  parse thinking = Raised (could_not_parse thinking).
Proof.
  apply (proj2 (parse_raises_iff thinking (could_not_parse thinking))).
  split; [reflexivity|]. split; [reflexivity|].
  intros i Hi. vm_compute in Hi. discriminate Hi.
Defined.

(** X3: what [parse] returns is clean and keeps the text: the log is the
    text as it came; a final answer and a tool name neither start nor end
    with whitespace; a tool input neither starts nor ends with a double
    quote (it may still start or end with a space that a quote hid). *)
Theorem parse_fields_stripped (llm_output : list N) (r : ParsedOutput) :
  parse llm_output = Returned r ->
  match r with
  | Action a =>
      log a = llm_output /\
      (forall c, head (tool a) = Some c \/ last (tool a) = Some c ->
                 is_space c = false) /\
      (forall c, head (tool_input a) = Some c \/ last (tool_input a) = Some c ->
                 c <> DQUOTE)
  | Finish f =>
      finish_log f = llm_output /\
      exists answer,
        return_values f = {[ u "output" := VStr answer ]} /\
        (forall c, head answer = Some c \/ last answer = Some c ->
                   is_space c = false)
  end.
Proof.
  intros Hp.
  destruct (contains FINAL_ANSWER llm_output) eqn:Hfa.
  - apply contains_rfind in Hfa as [i Hi].
    rewrite (parse_at_last_marker _ _ Hi) in Hp. injection Hp as <-.
    cbn [finish_log return_values]. split; [reflexivity|].
    eexists. split; [reflexivity|].
    intros c [H|H]; [apply strip_by_head in H | apply strip_by_last in H];
      exact H.
  - unfold parse in Hp. rewrite Hfa in Hp.
    destruct (re_search llm_output) as [[g1 g2]|]; [|discriminate].
    injection Hp as <-. cbn [log tool tool_input].
    split; [reflexivity|]. split.
    + intros c [H|H]; [apply strip_by_head in H | apply strip_by_last in H];
        exact H.
    + unfold dq. rewrite strip_chars_single.
      intros c [H|H]; [apply strip_by_head in H | apply strip_by_last in H];
        intros ->; rewrite N.eqb_refl in H; discriminate.
Qed.

(** A quoted input with a space inside the quotes. *)
Lemma parse_fields_stripped_witness :
  tool_input (mkAction (u "search") (u " cats ")
                (u "Action: search" ++ nl ++ u "Action Input: "
                   ++ dq ++ u " cats " ++ dq))
    = u " cats " /\
  forall c, head (u " cats ") = Some c \/ last (u " cats ") = Some c ->
            c <> DQUOTE.
Proof.
  split; [reflexivity|].
  exact (proj2 (proj2 (parse_fields_stripped
                         (u "Action: search" ++ nl ++ u "Action Input: "
                            ++ dq ++ u " cats " ++ dq)
                         (Action (mkAction (u "search") (u " cats ")
                            (u "Action: search" ++ nl ++ u "Action Input: "
                               ++ dq ++ u " cats " ++ dq)))
                         eq_refl))).
Defined.

(** ** The prompt formatter: what it overrides, what it keeps *)

Section FormatterFrame.
Context {W : Type}.
Variable str_format : list N -> gmap (list N) (list N) -> outcome (list N).
Implicit Types (self : CustomPromptTemplate W) (kwargs : gmap (list N) (list N)).
Implicit Types (steps : list (AgentAction * list N)).




(** X5: the scratchpad is append-only and the report is not.  The first
    component of [run_steps] on a trace followed by more steps is the one of
    the trace followed by the one of the further steps; after one more step
    it is the former scratchpad followed by that step's log, a line feed,
    "Observation: ", its observation, a line feed and "Thought: ", and this
    is what [format_messages] puts under [agent_scratchpad].  The second
    component is made of the last step alone, its log, two line feeds,
    "Observation: " and its observation, whatever came before; a configured
    callback is given exactly that text, stripped, and the template is then
    filled. *)
Theorem scratchpad_grows self cb steps more (st : AgentAction * list N)
    kwargs (w : W) :
  (run_steps (steps ++ more)).1 = (run_steps steps).1 ++ (run_steps more).1 /\
  (run_steps (steps ++ [st])).1 =
    (run_steps steps).1 ++ log st.1 ++ nl ++ u "Observation: " ++ st.2 ++ nl
      ++ u "Thought: " /\
  prompt_kwargs self (steps ++ [st]) kwargs !! u "agent_scratchpad" =
    Some ((run_steps steps).1 ++ log st.1 ++ nl ++ u "Observation: " ++ st.2
            ++ nl ++ u "Thought: ") /\
  (run_steps (steps ++ [st])).2 =
    log st.1 ++ nl ++ nl ++ u "Observation: " ++ st.2 /\
  (thoughts_cb self = Some cb ->
   format_messages str_format self (steps ++ [st]) kwargs w =
   (_ ← cb (strip (log st.1 ++ nl ++ nl ++ u "Observation: " ++ st.2));
    formatted ← lift (str_format (template self)
                        (prompt_kwargs self (steps ++ [st]) kwargs));
    ret [HumanMessage formatted]) w).
Proof.
  assert (Hpad : (run_steps (steps ++ [st])).1 =
            (run_steps steps).1 ++ log st.1 ++ nl ++ u "Observation: " ++ st.2
              ++ nl ++ u "Thought: ").
  { rewrite !run_steps_spec. cbn [fst]. rewrite fmap_app, concat_app.
    cbn [fmap list_fmap concat]. unfold render_step.
    rewrite app_nil_r. reflexivity. }
  assert (Hlast : (run_steps (steps ++ [st])).2 =
            log st.1 ++ nl ++ nl ++ u "Observation: " ++ st.2).
  { rewrite run_steps_spec. cbn [snd]. rewrite last_snoc. reflexivity. }
  split; [|split; [exact Hpad|split; [|split; [exact Hlast|]]]].
  - rewrite !run_steps_spec. cbn [fst]. rewrite fmap_app. apply concat_app.
  - unfold prompt_kwargs. rewrite lookup_tools_kwargs_other by key_ne.
    rewrite lookup_insert_eq, Hpad. reflexivity.
  - intros Hcb. rewrite format_messages_unfold, Hcb, Hlast. reflexivity.
Qed.

(** X6: the callback comes first.  When it raises, the template is never
    filled and its error is the outcome, whatever the formatter is; when it
    returns and filling the template raises, that error is the outcome and
    what the callback did to the world stays done. *)
Theorem format_messages_failure_order self cb steps kwargs w :
  thoughts_cb self = Some cb ->
  (forall e w', cb (latest_report steps) w = (Raised e, w') ->
     forall other_format,
       format_messages other_format self steps kwargs w = (Raised e, w')) /\
  (forall e w', cb (latest_report steps) w = (Returned tt, w') ->
     str_format (template self) (prompt_kwargs self steps kwargs) = Raised e ->
     format_messages str_format self steps kwargs w = (Raised e, w')).
Proof.
  intros Hcb. split.
  - intros e w' Hraise other_format. rewrite format_messages_unfold, Hcb.
    unfold latest_report in Hraise. rewrite run_steps_spec in *. cbn [snd].
    unfold_monad. rewrite Hraise. reflexivity.
  - intros e w' Hret Hfmt. rewrite format_messages_unfold, Hcb.
    unfold latest_report in Hret. rewrite run_steps_spec in *. cbn [snd].
    unfold_monad. rewrite Hret, Hfmt. reflexivity.
Qed.

End FormatterFrame.


Lemma scratchpad_grows_witness :
  format_messages append_scratchpad (demo_template (Some recording_cb))
    (one_step ++ [another_step]) ∅ [] =
  (Returned [HumanMessage (u "Question: hi" ++ nl ++ u "Action: search" ++ nl
                             ++ u "Observation:  found " ++ nl ++ u "Thought: "
                             ++ u "Action: lookup" ++ nl
                             ++ u "Observation: none" ++ nl ++ u "Thought: ")],
   [u "Action: lookup" ++ nl ++ nl ++ u "Observation: none"]).
Proof.
  rewrite (proj2 (proj2 (proj2 (proj2
             (scratchpad_grows append_scratchpad
                (demo_template (Some recording_cb)) recording_cb
                one_step [] another_step ∅ [])))) eq_refl).
  reflexivity.
Defined.

Lemma format_messages_failure_order_witness :
  format_messages
    (fun _ _ => Raised (mkExc KeyError [VStr (u "input")]))
    (demo_template (Some recording_cb)) one_step ∅ [] =
  (Raised (mkExc KeyError [VStr (u "input")]),
   [u "Action: search" ++ nl ++ nl ++ u "Observation:  found"]).
Proof.
  apply (proj2 (format_messages_failure_order
                  (fun _ _ => Raised (mkExc KeyError [VStr (u "input")]))
                  (demo_template (Some recording_cb)) recording_cb
                  one_step ∅ [] eq_refl)); reflexivity.
Defined.

(** ** The run: before and after the executor *)

Section RunFrame.
Context {W : Type}.
Variable str_format : list N -> gmap (list N) (list N) -> outcome (list N).
Variable format_map_SafeDict :
  list N -> gmap (list N) (list N) -> outcome (list N).
Variable LLM : Type.
Variable ChatOpenAI : Z -> M W LLM.
Variable complete : LLM -> list Message -> list (list N) -> M W (list N).
Variable get_tools : list (list N) -> LLM -> M W (list (Tool W)).
Variable get_tools_by_query : list N -> LLM -> M W (list (Tool W)).
Variable encode_protected_output : list N -> outcome (list N).
Variable is_dev_mode : M W bool.
Variable py_str : pyval -> list N.
Variable print_exc : PyException -> W -> W.

Let the_call := agent_executor_call str_format LLM complete py_str.
Let the_setup :=
  setup format_map_SafeDict LLM ChatOpenAI get_tools get_tools_by_query
    encode_protected_output is_dev_mode.
Let the_body :=
  run_body str_format format_map_SafeDict LLM ChatOpenAI complete get_tools
    get_tools_by_query encode_protected_output is_dev_mode py_str.
Let handle :=
  handle_chat_with_agents str_format format_map_SafeDict LLM ChatOpenAI
    complete get_tools get_tools_by_query encode_protected_output is_dev_mode
    py_str print_exc.

(** X7: the tools are resolved by query when no name is given and by name
    otherwise, the lookup being handed the client.  When the lookup raises,
    the caller gets the failure result at once: its [success] is [False],
    its [error] the arguments of the lookup's error, and the world is the
    one the lookup left, with the traceback printed.  Nothing after the
    lookup is reached: the result is the same whatever the formatter, the
    completion function of the executor, the dev-mode test, the encoder of
    the input, the history, the iteration bound and the callback are. *)
Theorem tool_selection_failure question names actor w
    rendered client wa e wb :
  format_map_SafeDict TEMPLATE {[ u "actor" := actor ]} = Returned rendered ->
  ChatOpenAI 0 w = (Returned client, wa) ->
  match names with
  | [] => get_tools_by_query question client
  | _ :: _ => get_tools names client
  end wa = (Raised e, wb) ->
  forall other_format other_complete other_encode other_dev_mode other_str
         other_history other_iters other_cb,
    handle_chat_with_agents other_format format_map_SafeDict LLM ChatOpenAI
      other_complete get_tools get_tools_by_query other_encode
      other_dev_mode other_str print_exc
      question other_history names actor other_iters other_cb w
    = (Returned (VDict {[ u "success" := VBool false;
                          u "error" := VTuple (exc_args e) ]}),
       print_exc e wb).
Proof.
  intros Ht Hc Hsel other_format other_complete other_encode other_dev_mode
    other_str other_history other_iters other_cb.
  unfold handle_chat_with_agents, try_except, run_body. unfold_monad.
  rewrite Ht, Hc. destruct names; rewrite Hsel; reflexivity.
Qed.

(** X8: when the executor's call returns a dictionary, the caller gets that
    dictionary with [success] bound to [True] (replacing any entry of that
    name); every other entry is passed on as it is, and nothing is logged. *)
Theorem run_result_passes_through (question : list N)
    (history names : list (list N)) (actor : list N) (max_iters : Z)
    (cb : option (list N -> M W unit)) (w : W)
    (ex : AgentExecutor LLM) (inputs : gmap (list N) (list N)) (w0 : W)
    (result : gmap (list N) pyval) (w1 : W) :
  the_setup question history names actor max_iters cb w
    = (Returned (ex, inputs), w0) ->
  the_call ex inputs w0 = (Returned (VDict result), w1) ->
  handle question history names actor max_iters cb w
    = (Returned (VDict (<[u "success" := VBool true]> result)), w1) /\
  forall k, k <> u "success" ->
            getitem (VDict (<[u "success" := VBool true]> result)) k = result !! k.
Proof.
  intros Hs Hc. split.
  - unfold handle, handle_chat_with_agents, try_except. fold the_body.
    unfold the_body. rewrite run_body_setup. fold the_setup the_call.
    rewrite Hs, Hc. reflexivity.
  - intros k Hk. cbn [getitem]. apply lookup_insert_ne. auto.
Qed.

(** X9: a failed run keeps nothing of the run: a result whose [success] is
    [False] is the failure dictionary of some exception and has no entry
    but [success] and [error]; in particular no trace and no output. *)
Theorem failed_run_has_no_trace question history names actor max_iters cb w
    result w' :
  handle question history names actor max_iters cb w = (Returned result, w') ->
  getitem result (u "success") = Some (VBool false) ->
  exists e,
    result = failure e /\
    (forall k, k <> u "success" -> k <> u "error" -> getitem result k = None) /\
    getitem result (u "intermediate_steps") = None /\
    getitem result (u "output") = None.
Proof.
  unfold handle, handle_chat_with_agents, try_except. fold the_body.
  destruct (the_body question history names actor max_iters cb w)
    as [[r|e] w1] eqn:E.
  - intros [= <- <-] Hfalse. exfalso.
    unfold the_body in E. rewrite run_body_setup in E.
    destruct (setup _ _ _ _ _ _ _ _ _ _ _ _ _ _) as [[[ex inputs]|e] w0];
      [|discriminate].
    destruct (agent_executor_call _ _ _ _ _ _ _) as [[r0|e] w2]; [|discriminate].
    destruct r0; try discriminate. cbn [setitem] in E. injection E as <- <-.
    cbn [getitem] in Hfalse. rewrite lookup_insert_eq in Hfalse. discriminate.
  - intros [= <- <-] _. exists e. split; [reflexivity|].
    assert (Hk : forall k, k <> u "success" -> k <> u "error" ->
                           getitem (failure e) k = None).
    { intros k H1 H2. unfold failure. cbn [getitem].
      rewrite lookup_insert_ne by auto. apply lookup_singleton_ne. auto. }
    split; [exact Hk|]. split; apply Hk; key_ne.
Qed.


End RunFrame.

Lemma tool_selection_failure_witness :
  handle_chat_with_agents append_scratchpad keep_template unit
    (fun _ => ret tt) (fun _ _ _ => ret thinking)
    (fun _ _ => raise (mkExc KeyError [VStr (u "no-such-tool")]))
    (fun _ _ => ret []) Returned (ret false) (fun _ => []) (fun _ w => w)
    (u "hello") [] [u "no-such-tool"] (u "assistant") 15 None tt =
  (Returned (VDict {[ u "success" := VBool false;
                      u "error" := VTuple [VStr (u "no-such-tool")] ]}), tt).
Proof.
  exact (tool_selection_failure (W:=unit) keep_template unit
           (fun _ => ret tt)
           (fun _ _ => raise (mkExc KeyError [VStr (u "no-such-tool")]))
           (fun _ _ => ret []) (fun _ w => w)
           (u "hello") [u "no-such-tool"] (u "assistant") tt
           TEMPLATE tt tt (mkExc KeyError [VStr (u "no-such-tool")]) tt
           eq_refl eq_refl eq_refl
           append_scratchpad (fun _ _ _ => ret thinking) Returned (ret false)
           (fun _ => []) [] 15%Z None).
Defined.

Lemma run_result_passes_through_witness :
  demo_handle (fun _ _ _ => ret (u "Final Answer: hi"))
    (u "hello") [] [] (u "assistant") 15 None tt =
  (Returned (VDict (<[u "success" := VBool true]>
                     (<[u "intermediate_steps" := VList []]>
                        ({[ u "output" := VStr (u "hi") ]}
                           ∪ (VStr <$> {[ u "input" := u "hello" ]}))))),
   tt).
Proof.
  refine (proj1 (run_result_passes_through (W:=unit) append_scratchpad
                   keep_template unit (fun _ => ret tt)
                   (fun _ _ _ => ret (u "Final Answer: hi"))
                   (fun _ _ => ret []) (fun _ _ => ret [])
                   Returned (ret false) (fun _ => []) (fun _ w => w)
                   (u "hello") [] [] (u "assistant") 15%Z None tt
                   _ _ tt _ tt eq_refl eq_refl)).
Defined.

Lemma failed_run_has_no_trace_witness :
  getitem (failure (could_not_parse thinking)) (u "intermediate_steps") = None.
Proof.
  destruct (failed_run_has_no_trace (W:=unit) append_scratchpad keep_template
              unit (fun _ => ret tt) (fun _ _ _ => ret thinking)
              (fun _ _ => ret []) (fun _ _ => ret [])
              Returned (ret false) (fun _ => []) (fun _ w => w)
              (u "hello") [] [] (u "assistant") 15%Z None tt
              (failure (could_not_parse thinking)) tt eq_refl eq_refl)
    as (e & _ & _ & Hsteps & _).
  exact Hsteps.
Defined.


(** ** The tool adapters: the shape of the backend's response *)

Section AdapterEdges.
Context {W : Type}.
Variable decode_protected_output : list N -> outcome (list N).
Variable parse_json_string : list N -> outcome pyval.
Variable json_loads : list N -> outcome pyval.
Variables Model Version Prediction : Type.
Variable models_get : list N -> M W Model.
Variable versions_get : Model -> list N -> M W Version.
Variable predictions_create : Version -> pyval -> M W Prediction.
Variable prediction_json : Prediction -> outcome (list N).
Variable print_exc : PyException -> W -> W.

Let create :=
  Replicate.create_prediction decode_protected_output parse_json_string
    json_loads Model Version Prediction models_get versions_get
    predictions_create prediction_json print_exc.
Let backend_response :=
  Replicate.backend_response decode_protected_output parse_json_string
    json_loads Model Version Prediction models_get versions_get
    predictions_create prediction_json.
Let adapters : list (Tool W) :=
  Replicate.tools decode_protected_output parse_json_string
    json_loads Model Version Prediction models_get versions_get
    predictions_create prediction_json print_exc.

(** X11: a job-creation response without a [version] entry makes the
    adapter report a failure, the [KeyError] of the deletion, although the
    job was created. *)
Theorem response_without_version (model_name model_version query : list N)
    (tag : Replicate.Output_Type) (w : W) (input : pyval)
    (response : gmap (list N) pyval) (w' : W) :
  backend_response model_name model_version query w input response w' ->
  response !! u "version" = None ->
  create model_name model_version query tag w =
    (Returned (failure (mkExc KeyError [VStr (u "version")])),
     print_exc (mkExc KeyError [VStr (u "version")]) w').
Proof.
  intros (q & model & version & prediction & serialised & w1 & w2
          & Hq & Hi & Hm & Hv & Hp & Hs & Hj) Hnone.
  unfold create, Replicate.create_prediction, Replicate.prediction_body.
  unfold_monad. rewrite Hq, Hi, Hm, Hv, Hp, Hs. cbn [obind]. rewrite Hj.
  cbn [setitem delitem]. rewrite lookup_insert_ne by key_ne.
  rewrite Hnone. reflexivity.
Qed.

(** X12: a job-creation response that is no dictionary (a list, a string,
    a number, null) makes the adapter report a failure with a [TypeError]. *)
Theorem response_not_a_dictionary (model_name model_version query : list N)
    (tag : Replicate.Output_Type) (w : W) (q : list N) (input : pyval)
    (model : Model) (version : Version) (prediction : Prediction)
    (serialised : list N) (answer : pyval) (w1 w2 w3 : W) :
  decode_protected_output query = Returned q ->
  parse_json_string q = Returned input ->
  models_get model_name w = (Returned model, w1) ->
  versions_get model model_version w1 = (Returned version, w2) ->
  predictions_create version input w2 = (Returned prediction, w3) ->
  prediction_json prediction = Returned serialised ->
  json_loads serialised = Returned answer ->
  (forall d, answer <> VDict d) ->
  exists e,
    exc_type e = TypeError /\
    create model_name model_version query tag w
      = (Returned (failure e), print_exc e w3).
Proof.
  intros Hq Hi Hm Hv Hp Hs Hj Hnot.
  unfold create, Replicate.create_prediction, Replicate.prediction_body.
  unfold_monad. rewrite Hq, Hi, Hm, Hv, Hp, Hs. cbn [obind]. rewrite Hj.
  destruct answer; try (eexists; split; [|reflexivity]; reflexivity).
  destruct (Hnot d eq_refl).
Qed.

(** X13: when every step returns and the response has a [version] entry,
    the adapter returns the success dictionary and logs nothing; under
    [replicate], [output_type] is the adapter's tag whatever the response
    said, [version] is gone, and every other entry of the response is
    passed on as it is. *)
Theorem create_prediction_success (model_name model_version query : list N)
    (tag : Replicate.Output_Type) (w : W) (input : pyval)
    (response : gmap (list N) pyval) (w' : W) :
  backend_response model_name model_version query w input response w' ->
  is_Some (response !! u "version") ->
  create model_name model_version query tag w =
    (Returned (Replicate.success_result (Replicate.tagged tag response) input
                 model_name model_version), w') /\
  getitem (Replicate.tagged tag response) (u "output_type")
    = Some (VStr (Replicate.output_type_str tag)) /\
  getitem (Replicate.tagged tag response) (u "version") = None /\
  (forall k, k <> u "output_type" -> k <> u "version" ->
             getitem (Replicate.tagged tag response) k = response !! k).
Proof.
  intros (q & model & version & prediction & serialised & w1 & w2
          & Hq & Hi & Hm & Hv & Hp & Hs & Hj) [v Hver].
  split; [|split; [|split]].
  - unfold create, Replicate.create_prediction, Replicate.prediction_body.
    unfold_monad. rewrite Hq, Hi, Hm, Hv, Hp, Hs. cbn [obind]. rewrite Hj.
    cbn [setitem delitem]. rewrite lookup_insert_ne by key_ne.
    rewrite Hver. reflexivity.
  - unfold Replicate.tagged. cbn [getitem].
    rewrite lookup_delete_ne by key_ne. apply lookup_insert_eq.
  - unfold Replicate.tagged. cbn [getitem]. apply lookup_delete_eq.
  - intros k H1 H2. unfold Replicate.tagged. cbn [getitem].
    rewrite lookup_delete_ne by auto. apply lookup_insert_ne. auto.
Qed.

(** X14: the catalogue holds nine adapters, no two under the same name, and
    each returns its result directly to the caller of the run. *)
Theorem catalogue_names_distinct :
  length adapters = 9 /\
  NoDup (name <$> adapters) /\
  Forall (fun t => return_direct t = true) adapters.
Proof.
  split; [reflexivity|]. split.
  - unfold adapters, Replicate.tools. cbn [fmap list_fmap name].
    apply (bool_decide_unpack _). vm_compute. exact I.
  - unfold adapters, Replicate.tools. repeat constructor.
Qed.

End AdapterEdges.

Lemma response_without_version_witness :
  Replicate.create_prediction Returned demo_parse_json
    (fun _ => Returned (VDict {[ u "id" := VStr (u "p1") ]})) unit unit unit
    (fun _ => ret tt) (fun _ _ => ret tt) (fun _ _ => ret tt)
    (fun _ => Returned (u "{...}")) (fun _ w => w)
    (u "owner/model") (u "v1") (u "{}") Replicate.text tt =
  (Returned (failure (mkExc KeyError [VStr (u "version")])), tt).
Proof.
  apply (response_without_version (W:=unit) Returned demo_parse_json
           (fun _ => Returned (VDict {[ u "id" := VStr (u "p1") ]}))
           unit unit unit
           (fun _ => ret tt) (fun _ _ => ret tt) (fun _ _ => ret tt)
           (fun _ => Returned (u "{...}")) (fun _ w => w)
           (u "owner/model") (u "v1") (u "{}") Replicate.text tt
           (VDict ∅) {[ u "id" := VStr (u "p1") ]} tt).
  - exists (u "{}"), tt, tt, tt, (u "{...}"), tt, tt.
    repeat split; reflexivity.
  - reflexivity.
Defined.

Lemma response_not_a_dictionary_witness :
  exists e,
    exc_type e = TypeError /\
    Replicate.create_prediction Returned demo_parse_json
      (fun _ => Returned (VList [])) unit unit unit
      (fun _ => ret tt) (fun _ _ => ret tt) (fun _ _ => ret tt)
      (fun _ => Returned (u "[]")) (fun _ w => w)
      (u "owner/model") (u "v1") (u "{}") Replicate.text tt
    = (Returned (failure e), tt).
Proof.
  apply (response_not_a_dictionary (W:=unit) Returned demo_parse_json
           (fun _ => Returned (VList [])) unit unit unit
           (fun _ => ret tt) (fun _ _ => ret tt) (fun _ _ => ret tt)
           (fun _ => Returned (u "[]")) (fun _ w => w)
           (u "owner/model") (u "v1") (u "{}") Replicate.text tt
           (u "{}") (VDict ∅) tt tt tt (u "[]") (VList []) tt tt tt);
    try reflexivity.
  intros d. discriminate.
Defined.

Lemma create_prediction_success_witness :
  getitem (Replicate.tagged Replicate.image demo_response) (u "status")
    = Some (VStr (u "starting")).
Proof.
  refine (proj2 (proj2 (proj2
            (create_prediction_success (W:=unit) Returned demo_parse_json
               (fun _ => Returned (VDict demo_response)) unit unit unit
               (fun _ => ret tt) (fun _ _ => ret tt) (fun _ _ => ret tt)
               (fun _ => Returned (u "{...}")) (fun _ w => w)
               (u "owner/model") (u "v1") (u "{}") Replicate.image tt
               (VDict ∅) demo_response tt _ _)))
            (u "status") _ _).
  - exists (u "{}"), tt, tt, tt, (u "{...}"), tt, tt.
    repeat split; reflexivity.
  - exists (VStr (u "db21e45d")). reflexivity.
  - key_ne.
  - key_ne.
Defined.
